(** * File commands of the Zenodo helper CLI

    A shallow embedding of the file commands of
    [zenodo/modules/utils/cli.py] ([add_file], [remove_file],
    [rename_file], [attach_file]) as programs of a small
    exception-and-state monad, and the properties of the bucket
    mutation protocol they implement.

    The commands run against a database session ([sess]) that
    [db.session.commit()] writes through to the committed store
    ([disk]).  The object-version index, the content store, the record
    metadata synchronisation and the persistent-identifier resolvers are
    collaborators imported by [cli.py]; they are modelled from their
    contracts in the design notes (sections 4.1 to 4.5 and 6). *)

From Stdlib Require Import ZArith Ascii String.
From stdpp Require Import base option list gmap strings sorting.

Local Open Scope string_scope.
Local Open Scope Z_scope.
Local Open Scope list_scope.

(** ** Data model *)

Abbreviation BucketId := nat.
Abbreviation RecId := nat.
Abbreviation FileId := string.

(** A stored byte stream: [FileInstance] of the object store.  The
    content store is keyed by the content identifier. *)
Record ContentEntry := mkContentEntry {
  ce_checksum : string;
  ce_size : Z
}.

(** One state of a key within a bucket.  [ov_file = None] is a tombstone
    (delete marker). *)
Record ObjectVersion := mkObjectVersion {
  ov_bucket : BucketId;
  ov_key : string;
  ov_seq : nat;
  ov_file : option FileId;
  ov_is_head : bool
}.

Record Bucket := mkBucket {
  b_locked : bool
}.

(** One entry of the [_files] listing embedded in a record. *)
Record FileSummary := mkFileSummary {
  fs_key : string;
  fs_checksum : string;
  fs_size : Z
}.

(** A record: its identifier, the bucket it owns and the embedded
    [_files] listing. *)
Record RecordObj := mkRecord {
  rec_id : RecId;
  rec_bucket : BucketId;
  rec_files : list FileSummary
}.

(** The relational state: what a session holds and what a commit
    writes. *)
Record Db := mkDb {
  buckets : gmap nat Bucket;
  versions : list ObjectVersion;
  store : gmap string ContentEntry;
  records : gmap nat RecordObj;
  pids : gmap (string * string) nat
}.

(** The binary file object [fp] that click opens for [add_file].
    [f_drains] and [f_nread] are ghost counters: how often the stream
    was read to its end, and how many bytes were read in all. *)
Record File := mkFile {
  f_name : string;
  f_content : list Byte.byte;
  f_pos : Z;
  f_drains : nat;
  f_nread : Z
}.

Inductive Step :=
| StepDelete | StepIngest | StepCreate
| StepFlush | StepRecordCommit | StepDbCommit.

Inductive Exn :=
| AssertionError (msg : string)
| PIDDoesNotExistError (pid_type pid_value : string)
| MissingBucket
| OSError
| NotFound
| KeyConflict
| BucketLocked
| LockConflict
| SizeMismatch
| Failure (s : Step).

(** What the commands print with [click.echo]. *)
Inductive Message :=
| MsgAlreadyExists (key : string)
| MsgAlreadyExistsOn (key : string) (bucket : BucketId)
| MsgNotFound (key : string)
| MsgWillAdd (key : string) (bucket : BucketId) (size : Z)
| MsgAndRemove (key : string) (bucket : BucketId) (size : option Z)
| MsgWillRemove (key : string) (checksum : option string)
                (bucket : BucketId)
| MsgRecord (uuid : RecId)
| MsgAdded | MsgAddAborted
| MsgRemoved | MsgRemoveAborted
| MsgRenamed | MsgRenameAborted
| MsgAttached | MsgAttachAborted.

(** The observable steps of a run, in order. *)
Inductive Event :=
| Echo (msg : Message)
| SetLocked (b : BucketId) (v : bool)
| IxDelete (b : BucketId) (key : string)
| IxCreate (b : BucketId) (key : string) (f : FileId)
| Flush (r : RecId)
| RecordCommit (r : RecId)
| DbCommit.

Record Machine := mkMachine {
  sess : Db;
  disk : Db;
  fp : File;
  log : list Event
}.

(** What a run depends on from outside: the operator's answer to
    [click.confirm], the steps at which a collaborator fails, and the
    digest that names stored content. *)
Record Env := mkEnv {
  confirm : bool;
  fails : Step → bool;
  digest : list Byte.byte → string
}.

Global Instance Step_eq_dec : EqDecision Step.
Proof. solve_decision. Defined.
Global Instance ContentEntry_eq_dec : EqDecision ContentEntry.
Proof. solve_decision. Defined.
Global Instance ObjectVersion_eq_dec : EqDecision ObjectVersion.
Proof. solve_decision. Defined.
Global Instance FileSummary_eq_dec : EqDecision FileSummary.
Proof. solve_decision. Defined.

(** ** The command monad: a reader of [Env], a state of [Machine], and
    exceptions that keep the state reached when they were raised. *)

Inductive Outcome (A : Type) :=
| Return (a : A) (m : Machine)
| Raise (e : Exn) (m : Machine).
Arguments Return {A} a m.
Arguments Raise {A} e m.

Definition Cmd (A : Type) : Type := Env → Machine → Outcome A.

Global Instance Cmd_ret : MRet Cmd := λ A a _ m, Return a m.
Global Instance Cmd_bind : MBind Cmd := λ A B f c env m,
  match c env m with
  | Return a m' => f a env m'
  | Raise e m' => Raise e m'
  end.

Definition raise {A} (e : Exn) : Cmd A := λ _ m, Raise e m.
Definition ask : Cmd Env := λ env m, Return env m.
Definition get_machine : Cmd Machine := λ _ m, Return m m.
Definition put_machine (m : Machine) : Cmd unit := λ _ _, Return tt m.

Definition set_sess (d : Db) (m : Machine) : Machine :=
  mkMachine d (disk m) (fp m) (log m).
Definition set_disk (d : Db) (m : Machine) : Machine :=
  mkMachine (sess m) d (fp m) (log m).
Definition set_fp (f : File) (m : Machine) : Machine :=
  mkMachine (sess m) (disk m) f (log m).
Definition emit (e : Event) (m : Machine) : Machine :=
  mkMachine (sess m) (disk m) (fp m) (log m ++ [e]).

Definition modify (f : Machine → Machine) : Cmd unit :=
  λ _ m, Return tt (f m).

(** A collaborator step fails when the environment says so. *)
Definition fault (s : Step) : Cmd unit :=
  env ← ask; if fails env s then raise (Failure s) else mret tt.

Definition echo (msg : Message) : Cmd unit := modify (emit (Echo msg)).

Definition click_confirm : Cmd bool := env ← ask; mret (confirm env).

(** ** The file object

    [fp.seek(offset, whence)], [fp.tell()] and reading to the end of the
    file, with Python's meaning of [whence]. *)

Definition SEEK_SET : Z := 0.
Definition SEEK_END : Z := 2.

Definition file_len (f : File) : Z := Z.of_nat (length (f_content f)).

Definition with_pos (p : Z) (f : File) : File :=
  mkFile (f_name f) (f_content f) p (f_drains f) (f_nread f).

Definition seek_target (f : File) (offset whence : Z) : option Z :=
  if Z.eqb whence 0 then Some offset
  else if Z.eqb whence 1 then Some (f_pos f + offset)
  else if Z.eqb whence 2 then Some (file_len f + offset)
  else None.

Definition fp_seek (offset whence : Z) : Cmd Z := λ _ m,
  match seek_target (fp m) offset whence with
  | Some p =>
      if Z.ltb p 0 then Raise OSError m
      else Return p (set_fp (with_pos p (fp m)) m)
  | None => Raise OSError m
  end.

Definition fp_tell : Cmd Z := λ _ m, Return (f_pos (fp m)) m.

Definition fp_name : Cmd string := λ _ m, Return (f_name (fp m)) m.

(** The bytes from the current position to the end. *)
Definition rest_of (f : File) : list Byte.byte :=
  drop (Z.to_nat (f_pos f)) (f_content f).

Definition drained (f : File) : File :=
  mkFile (f_name f) (f_content f)
         (f_pos f + Z.of_nat (length (rest_of f)))
         (S (f_drains f))
         (f_nread f + Z.of_nat (length (rest_of f))).

Definition fp_drain : Cmd (list Byte.byte) := λ _ m,
  Return (rest_of (fp m)) (set_fp (drained (fp m)) m).

(** [os.path.basename]: what follows the last slash. *)
Fixpoint has_slash (p : string) : bool :=
  match p with
  | EmptyString => false
  | String c r => Ascii.eqb c "/" || has_slash r
  end.

Fixpoint basename (p : string) : string :=
  match p with
  | EmptyString => EmptyString
  | String c r =>
      if has_slash r then basename r
      else if Ascii.eqb c "/" then r else p
  end.

(** ** ObjectVersionIndex *)

Definition same_key (b : BucketId) (k : string) (v : ObjectVersion) : Prop :=
  ov_bucket v = b ∧ ov_key v = k.

(** A live version: is-latest and not a tombstone. *)
Definition live (v : ObjectVersion) : Prop :=
  ov_is_head v = true ∧ is_Some (ov_file v).

Definition live_in (b : BucketId) (v : ObjectVersion) : Prop :=
  ov_bucket v = b ∧ live v.

Definition live_at (b : BucketId) (k : string) (v : ObjectVersion) : Prop :=
  same_key b k v ∧ live v.

Global Instance same_key_dec b k v : Decision (same_key b k v).
Proof. unfold same_key. apply _. Defined.
Global Instance live_dec v : Decision (live v).
Proof. unfold live. apply _. Defined.
Global Instance live_in_dec b v : Decision (live_in b v).
Proof. unfold live_in. apply _. Defined.
Global Instance live_at_dec b k v : Decision (live_at b k v).
Proof. unfold live_at. apply _. Defined.

(** Modelled from the spec: [get(bucket, key)] of section 4.2, the
    current is-latest version of the key, or nothing when the key is
    absent or tombstoned ([ObjectVersion.get] is imported from
    invenio_files_rest). *)
Definition find_live (vs : list ObjectVersion) (b : BucketId) (k : string)
  : option ObjectVersion :=
  List.find (λ v, bool_decide (live_at b k v)) vs.

Definition index_get (d : Db) (b : BucketId) (k : string)
  : option ObjectVersion :=
  find_live (versions d) b k.

Definition key_le (x y : ObjectVersion) : Prop :=
  String.leb (ov_key x) (ov_key y) = true.

Global Instance key_le_dec x y : Decision (key_le x y).
Proof. unfold key_le. apply _. Defined.

(** Modelled from the spec: [list(bucket)] of section 4.2, all live
    entries of the bucket, ordered by key. *)
Definition live_sorted (vs : list ObjectVersion) (b : BucketId)
  : list ObjectVersion :=
  merge_sort key_le (filter (live_in b) vs).

Definition index_list (d : Db) (b : BucketId) : list ObjectVersion :=
  live_sorted (versions d) b.

Definition retire (b : BucketId) (k : string) (v : ObjectVersion)
  : ObjectVersion :=
  if decide (same_key b k v)
  then mkObjectVersion (ov_bucket v) (ov_key v) (ov_seq v) (ov_file v) false
  else v.

Definition next_seq (vs : list ObjectVersion) (b : BucketId) (k : string)
  : nat :=
  length (filter (same_key b k) vs).

Definition new_version (vs : list ObjectVersion) (b : BucketId) (k : string)
  (f : option FileId) : ObjectVersion :=
  mkObjectVersion b k (next_seq vs b k) f true.

Definition appended (vs : list ObjectVersion) (b : BucketId) (k : string)
  (f : option FileId) : list ObjectVersion :=
  (retire b k <$> vs) ++ [new_version vs b k f].

(** Appending a version makes it the only is-latest one of its key. *)
Definition append_version (b : BucketId) (k : string) (f : option FileId)
  (d : Db) : Db :=
  mkDb (buckets d) (appended (versions d) b k f)
       (store d) (records d) (pids d).

Definition ObjectVersion_get (b : BucketId) (k : string)
  : Cmd (option ObjectVersion) := λ _ m,
  Return (index_get (sess m) b k) m.

(** Index mutations need the bucket unlocked (section 4.2). *)
Definition require_unlocked (b : BucketId) : Cmd unit := λ _ m,
  match buckets (sess m) !! b with
  | Some bk => if b_locked bk then Raise BucketLocked m else Return tt m
  | None => Raise NotFound m
  end.

(** Modelled from the spec: [put(bucket, key, content)] of section 4.2,
    which appends a new is-latest version and fails with [KeyConflict]
    when the key has a live version. *)
Definition index_put (b : BucketId) (k : string) (f : FileId)
  : Cmd ObjectVersion :=
  require_unlocked b;;
  m ← get_machine;
  match index_get (sess m) b k with
  | Some _ => raise KeyConflict
  | None =>
      modify (λ m, emit (IxCreate b k f)
                        (set_sess (append_version b k (Some f) (sess m)) m));;
      mret (new_version (versions (sess m)) b k (Some f))
  end.

(** Modelled from the spec: [delete(bucket, key)] of section 4.2, which
    appends a tombstone and fails with [NotFound] when the key has no
    live version ([ObjectVersion.delete] is imported from
    invenio_files_rest). *)
Definition ObjectVersion_delete (b : BucketId) (k : string)
  : Cmd ObjectVersion :=
  fault StepDelete;;
  require_unlocked b;;
  m ← get_machine;
  match index_get (sess m) b k with
  | None => raise NotFound
  | Some _ =>
      modify (λ m, emit (IxDelete b k)
                        (set_sess (append_version b k None (sess m)) m));;
      mret (new_version (versions (sess m)) b k None)
  end.

(** ** ContentStore *)

Definition stored (st : gmap string ContentEntry) (id : FileId)
  (ce : ContentEntry) : gmap string ContentEntry :=
  match st !! id with
  | Some _ => st
  | None => <[id := ce]> st
  end.

Definition add_content (id : FileId) (ce : ContentEntry) (d : Db) : Db :=
  mkDb (buckets d) (versions d) (stored (store d) id ce)
       (records d) (pids d).

(** Modelled from the spec: ingestion of a stream into the ContentStore
    (sections 2 and 4.3): the stream is read to its end, the observed
    length is checked against the declared size ([SizeMismatch]), and
    the content is stored once under its digest. *)
Definition ingest (size : Z) : Cmd FileId :=
  fault StepIngest;;
  data ← fp_drain;
  if decide (Z.of_nat (length data) = size) then
    env ← ask;
    let id := digest env data in
    modify (λ m, set_sess (add_content id (mkContentEntry id size) (sess m)) m);;
    mret id
  else raise SizeMismatch.

(** The two ways [cli.py] calls [ObjectVersion.create]: with
    [stream=fp, size=size] and with [_file_id=file_id]. *)
Inductive Source :=
| FromStream (size : Z)
| FromFileId (file_id : FileId).

(** Modelled from the spec: [ObjectVersion.create] (imported from
    invenio_files_rest) as ingestion followed by [put] for a stream,
    and as a lookup of the content identifier ([NotFound] when unknown)
    followed by [put] for a file id. *)
Definition ObjectVersion_create (b : BucketId) (k : string) (src : Source)
  : Cmd ObjectVersion :=
  match src with
  | FromStream size =>
      f ← ingest size;
      fault StepCreate;;
      index_put b k f
  | FromFileId file_id =>
      fault StepCreate;;
      m ← get_machine;
      match store (sess m) !! file_id with
      | Some _ => index_put b k file_id
      | None => raise NotFound
      end
  end.

(** ** BucketLock

    [bucket.locked = v] in [cli.py] is a plain attribute assignment on
    the bucket row of the session. *)
Definition set_locked (b : BucketId) (v : bool) : Cmd unit :=
  modify (λ m,
    emit (SetLocked b v)
         (set_sess (mkDb (<[b := mkBucket v]> (buckets (sess m)))
                         (versions (sess m)) (store (sess m))
                         (records (sess m)) (pids (sess m))) m)).

Definition locked_in (d : Db) (b : BucketId) : option bool :=
  b_locked <$> buckets d !! b.

(** ** Resolvers, metadata synchronisation, commits *)

(** Modelled from the spec: [resolve(identifier)] of section 6, which
    fails for unknown identifiers ([record_resolver] and
    [deposit_resolver] are imported from other modules). *)
Definition record_of (d : Db) (pid_type pid_value : string)
  : option RecordObj :=
  rid ← pids d !! (pid_type, pid_value); records d !! rid.

Definition resolve (pid_type pid_value : string)
  : Cmd (string * RecordObj) := λ _ m,
  match record_of (sess m) pid_type pid_value with
  | Some r => Return (pid_value, r) m
  | None => Raise (PIDDoesNotExistError pid_type pid_value) m
  end.

Definition record_resolver_resolve : string → Cmd (string * RecordObj) :=
  resolve "recid".
Definition deposit_resolver_resolve : string → Cmd (string * RecordObj) :=
  resolve "depid".

(** [record.files.bucket]. *)
Definition files_bucket (r : RecordObj) : Cmd BucketId := λ _ m,
  match buckets (sess m) !! rec_bucket r with
  | Some _ => Return (rec_bucket r) m
  | None => Raise MissingBucket m
  end.

Definition summary (st : gmap string ContentEntry) (v : ObjectVersion)
  : option FileSummary :=
  f ← ov_file v;
  ce ← st !! f;
  Some (mkFileSummary (ov_key v) (ce_checksum ce) (ce_size ce)).

(** The (key, checksum, size) projection of the live versions. *)
Definition listing (d : Db) (b : BucketId) : list FileSummary :=
  omap (summary (store d)) (index_list d b).

(** Modelled from the spec: [sync(record)] of section 4.4, which
    recomputes the listing from [list] on the record's bucket and
    rewrites the embedded listing ([record.files.flush()]). *)
Definition files_flush (r : RecordObj) : Cmd RecordObj :=
  fault StepFlush;;
  m ← get_machine;
  modify (emit (Flush (rec_id r)));;
  mret (mkRecord (rec_id r) (rec_bucket r) (listing (sess m) (rec_bucket r))).

(** [record.commit()]: the record's document goes to the session. *)
Definition record_commit (r : RecordObj) : Cmd unit :=
  fault StepRecordCommit;;
  modify (λ m,
    emit (RecordCommit (rec_id r))
         (set_sess (mkDb (buckets (sess m)) (versions (sess m))
                         (store (sess m))
                         (<[rec_id r := r]> (records (sess m)))
                         (pids (sess m))) m)).

(** [db.session.commit()]: the session is written through. *)
Definition db_session_commit : Cmd unit :=
  fault StepDbCommit;;
  modify (λ m, emit DbCommit (set_disk (sess m) m)).

(** ** The commands of [cli.py] *)

(** Python truthiness of an optional string option of the command
    line: absent and empty are false. *)
Definition truthy (o : option string) : bool :=
  match o with
  | Some s => negb (String.eqb s EmptyString)
  | None => false
  end.

Definition str (o : option string) : string := default EmptyString o.

(** [x in ('recid', 'depid', )]. *)
Definition is_pid_type (o : option string) : bool :=
  match o with
  | Some s => String.eqb s "recid" || String.eqb s "depid"
  | None => false
  end.

Definition py_assert (c : bool) (msg : string) : Cmd unit :=
  if c then mret tt else raise (AssertionError msg).

(** [obj.file.id] of a version; a tombstone has no file. *)
Definition file_id_of (obj : ObjectVersion) : Cmd FileId :=
  match ov_file obj with
  | Some f => mret f
  | None => raise NotFound
  end.

(** [obj.file.checksum] and [obj.file.size], as printed. *)
Definition checksum_of (d : Db) (obj : ObjectVersion) : option string :=
  f ← ov_file obj; ce ← store d !! f; Some (ce_checksum ce).
Definition size_of (d : Db) (obj : ObjectVersion) : option Z :=
  f ← ov_file obj; ce ← store d !! f; Some (ce_size ce).

Definition add_file (recid : string) (replace_existing : bool) : Cmd unit :=
  '(pid, record) ← record_resolver_resolve recid;
  bucket ← files_bucket record;
  name ← fp_name;
  let key := basename name in
  obj ← ObjectVersion_get bucket key;
  if bool_decide (is_Some obj) && negb replace_existing then
    echo (MsgAlreadyExists key)
  else
    fp_seek SEEK_SET SEEK_END;;
    size ← fp_tell;
    fp_seek SEEK_SET 0;;
    echo (MsgWillAdd key bucket size);;
    echo (MsgRecord (rec_id record));;
    m ← get_machine;
    match obj with
    | Some o =>
        if replace_existing
        then echo (MsgAndRemove (ov_key o) (ov_bucket o) (size_of (sess m) o))
        else mret tt
    | None => mret tt
    end;;
    ok ← click_confirm;
    if (ok : bool) then
      set_locked bucket false;;
      match obj with
      | Some o =>
          if replace_existing
          then ObjectVersion_delete bucket (ov_key o);; mret tt
          else mret tt
      | None => mret tt
      end;;
      ObjectVersion_create bucket key (FromStream size);;
      set_locked bucket true;;
      record ← files_flush record;
      record_commit record;;
      db_session_commit;;
      echo MsgAdded
    else
      echo MsgAddAborted.

Definition remove_file (recid key : string) : Cmd unit :=
  '(pid, record) ← record_resolver_resolve recid;
  bucket ← files_bucket record;
  obj ← ObjectVersion_get bucket key;
  match obj with
  | None => echo (MsgNotFound key)
  | Some obj =>
      m ← get_machine;
      echo (MsgWillRemove key (checksum_of (sess m) obj) bucket);;
      echo (MsgRecord (rec_id record));;
      ok ← click_confirm;
      if (ok : bool) then
        set_locked bucket false;;
        ObjectVersion_delete bucket (ov_key obj);;
        set_locked bucket true;;
        record ← files_flush record;
        record_commit record;;
        db_session_commit;;
        echo MsgRemoved
      else
        echo MsgRemoveAborted
  end.

Definition rename_file (recid key new_key : string) : Cmd unit :=
  '(pid, record) ← record_resolver_resolve recid;
  bucket ← files_bucket record;
  obj ← ObjectVersion_get bucket key;
  match obj with
  | None => echo (MsgNotFound key)
  | Some obj =>
      new_obj ← ObjectVersion_get bucket new_key;
      match new_obj with
      | Some _ => echo (MsgAlreadyExists new_key)
      | None =>
          ok ← click_confirm;
          if (ok : bool) then
            (b ← files_bucket record; set_locked b false);;
            file_id ← file_id_of obj;
            ObjectVersion_delete bucket (ov_key obj);;
            ObjectVersion_create bucket new_key (FromFileId file_id);;
            (b ← files_bucket record; set_locked b true);;
            record ← files_flush record;
            record_commit record;;
            db_session_commit;;
            echo MsgRenamed
          else
            echo MsgRenameAborted
      end
  end.

Definition resolver_for (pid_type : option string)
  : string → Cmd (string * RecordObj) :=
  if decide (pid_type = Some "recid")
  then record_resolver_resolve else deposit_resolver_resolve.

(** [attach_file] from the resolution of the target on, once the file
    id is known. *)
Definition attach_to (file_id : FileId) (pid_type2 pid_value2 key2 : option string)
  : Cmd unit :=
  '(pid2, record2) ← resolver_for pid_type2 (str pid_value2);
  bucket2 ← files_bucket record2;
  obj2 ← ObjectVersion_get bucket2 (str key2);
  match obj2 with
  | Some _ => echo (MsgAlreadyExistsOn (str key2) bucket2)
  | None =>
      ok ← click_confirm;
      if (ok : bool) then
        (b ← files_bucket record2; set_locked b false);;
        ObjectVersion_create bucket2 (str key2) (FromFileId file_id);;
        (if decide (pid_type2 = Some "recid")
         then b ← files_bucket record2; set_locked b true
         else mret tt);;
        record2 ← files_flush record2;
        record_commit record2;;
        db_session_commit;;
        echo MsgAttached
      else
        echo MsgAttachAborted
  end.

Definition pid_type_msg : string := "PID type must be 'recid' or 'depid'.".

Definition attach_file
  (file_id pid_type1 pid_value1 key1 pid_type2 pid_value2 key2 : option string)
  : Cmd unit :=
  py_assert ((truthy file_id
              || (truthy pid_type1 && truthy pid_value1 && truthy key1))
             && (truthy pid_type2 && truthy pid_value2 && truthy key2))
            EmptyString;;
  (if truthy pid_type1
   then py_assert (is_pid_type pid_type1) pid_type_msg
   else mret tt);;
  py_assert (is_pid_type pid_type2) pid_type_msg;;
  if negb (truthy file_id) then
    '(pid1, record1) ← resolver_for pid_type1 (str pid_value1);
    bucket1 ← files_bucket record1;
    obj1 ← ObjectVersion_get bucket1 (str key1);
    match obj1 with
    | None => echo (MsgNotFound (str key1))
    | Some obj1 =>
        file_id ← file_id_of obj1;
        attach_to file_id pid_type2 pid_value2 key2
    end
  else
    attach_to (str file_id) pid_type2 pid_value2 key2.

(** The machine a run ends in, whether it returns or raises. *)
Definition final {A} (o : Outcome A) : Machine :=
  match o with
  | Return _ m => m
  | Raise _ m => m
  end.

(** The command group [utils]: one invocation of a file command. *)
Inductive Op :=
| Add (recid : string) (replace_existing : bool)
| Remove (recid key : string)
| Rename (recid key new_key : string)
| Attach (file_id pid_type1 pid_value1 key1
          pid_type2 pid_value2 key2 : option string).

Definition run (op : Op) : Cmd unit :=
  match op with
  | Add recid replace_existing => add_file recid replace_existing
  | Remove recid key => remove_file recid key
  | Rename recid key new_key => rename_file recid key new_key
  | Attach file_id pid_type1 pid_value1 key1 pid_type2 pid_value2 key2 =>
      attach_file file_id pid_type1 pid_value1 key1
                  pid_type2 pid_value2 key2
  end.

(** The message a command prints last when it has done its work. *)
Definition success_msg (op : Op) : Message :=
  match op with
  | Add _ _ => MsgAdded
  | Remove _ _ => MsgRemoved
  | Rename _ _ _ => MsgRenamed
  | Attach _ _ _ _ _ _ _ => MsgAttached
  end.

Definition succeeded (op : Op) (env : Env) (m m' : Machine) : Prop :=
  run op env m = Return tt m' ∧ last (log m') = Some (Echo (success_msg op)).

(** The record whose bucket a command mutates. *)
Definition target (d : Db) (op : Op) : option RecordObj :=
  match op with
  | Add recid _ | Remove recid _ | Rename recid _ _ =>
      record_of d "recid" recid
  | Attach _ _ _ _ pid_type2 pid_value2 _ =>
      record_of d (if decide (pid_type2 = Some "recid")
                   then "recid" else "depid") (str pid_value2)
  end.

(** ** The precondition of [attach_file], as its documentation and
    assertions word it *)

Definition supplied (o : option string) : Prop :=
  ∃ s, o = Some s ∧ s ≠ EmptyString.

Definition valid_pid_type (o : option string) : Prop :=
  o = Some "recid" ∨ o = Some "depid".

Definition attach_requires
  (file_id pid_type1 pid_value1 key1 pid_type2 pid_value2 key2 : option string)
  : Prop :=
  (supplied file_id
   ∨ (supplied pid_type1 ∧ supplied pid_value1 ∧ supplied key1))
  ∧ (supplied pid_type2 ∧ supplied pid_value2 ∧ supplied key2)
  ∧ (supplied pid_type1 → valid_pid_type pid_type1)
  ∧ (supplied pid_type2 → valid_pid_type pid_type2).

(** ** A small installation, used to run the commands

    Record "1" owns bucket 7 with one file, "a.txt"; deposit "2" owns
    the empty bucket 8.  The file on the command line is "/tmp/b.txt". *)

Definition demo_db (locked7 locked8 : bool) : Db :=
  mkDb (<[7%nat := mkBucket locked7]> (<[8%nat := mkBucket locked8]> ∅))
       [mkObjectVersion 7 "a.txt" 0 (Some "h1") true]
       (<["h1" := mkContentEntry "h1" 3]> ∅)
       (<[10%nat := mkRecord 10 7 [mkFileSummary "a.txt" "h1" 3]]>
          (<[20%nat := mkRecord 20 8 []]> ∅))
       (<[("recid", "1") := 10%nat]> (<[("depid", "2") := 20%nat]> ∅)).

Definition demo_fp (name : string) : File :=
  mkFile name [Byte.x68; Byte.x69] 0 0 0.

Definition demo_machine (locked7 locked8 : bool) (name : string) : Machine :=
  mkMachine (demo_db locked7 locked8) (demo_db locked7 locked8)
            (demo_fp name) [].

(** The operator answers [answer]; the steps in [failing] fail. *)
Definition demo_env (answer : bool) (failing : list Step) : Env :=
  mkEnv answer (λ s, bool_decide (s ∈ failing)) string_of_list_byte.

Definition env_yes : Env := demo_env true [].
Definition env_no : Env := demo_env false [].
Definition env_ingest_fails : Env := demo_env true [StepIngest].

(** Both buckets locked; the file to add is new, or replaces "a.txt". *)
Definition m_new : Machine := demo_machine true true "/tmp/b.txt".
Definition m_replace : Machine := demo_machine true true "/tmp/a.txt".
(** The record's bucket was left unlocked. *)
Definition m_unlocked : Machine := demo_machine false true "/tmp/b.txt".

Definition demo_record : RecordObj :=
  mkRecord 10 7 [mkFileSummary "a.txt" "h1" 3].
Definition demo_deposit : RecordObj := mkRecord 20 8 [].
Definition demo_version : ObjectVersion :=
  mkObjectVersion 7 "a.txt" 0 (Some "h1") true.

Definition attach_to_deposit : Op :=
  Attach (Some "h1") None None None (Some "depid") (Some "2") (Some "c.txt").
Definition attach_to_record : Op :=
  Attach None (Some "depid") (Some "2") (Some "zz")
         (Some "recid") (Some "1") (Some "c.txt").


(** ** The version history and its heads *)

(** A version without its is-latest flag: what the history records. *)
Definition history_entry (v : ObjectVersion)
  : BucketId * string * nat * option FileId :=
  (ov_bucket v, ov_key v, ov_seq v, ov_file v).

Definition history (vs : list ObjectVersion)
  : list (BucketId * string * nat * option FileId) :=
  history_entry <$> vs.

Definition head_at (b : BucketId) (k : string) (v : ObjectVersion) : Prop :=
  same_key b k v ∧ ov_is_head v = true.

Global Instance head_at_dec b k v : Decision (head_at b k v).
Proof. unfold head_at. apply _. Defined.

(** At most one is-latest version for every key of every bucket. *)
Definition unique_heads (vs : list ObjectVersion) : Prop :=
  ∀ b k, (length (filter (head_at b k) vs) ≤ 1)%nat.

(** ** [list_files]

    The command only reads and prints; it is embedded as a function of
    the session to what it prints and the error that stops it. *)

Inductive ListError :=
| NoSuchPid (recid : string)
| KeyError (key : string)
| NoFile (key : string).

(** A printed line: index, key, checksum and size. *)
Record FileLine := mkFileLine {
  fl_idx : nat;
  fl_key : string;
  fl_checksum : string;
  fl_size : Z
}.

(** Modelled from the spec: [record.files[key].obj.file], the content
    entry of the key's live version ([get] of section 4.2); a key with
    no live version is a [KeyError] ([record.files] is imported). *)
Definition files_getitem (d : Db) (b : BucketId) (key : string)
  : ListError + ContentEntry :=
  match index_get d b key with
  | None => inl (KeyError key)
  | Some obj =>
      match ov_file obj ≫= (λ f, store d !! f) with
      | Some ce => inr ce
      | None => inl (NoFile key)
      end
  end.

(** The loop over [enumerate(record.files.keys)]: the lines printed,
    and the error that ended the loop, if any. *)
Fixpoint file_lines (d : Db) (b : BucketId) (idx : nat) (keys : list string)
  : list FileLine * option ListError :=
  match keys with
  | [] => ([], None)
  | key :: rest =>
      match files_getitem d b key with
      | inl e => ([], Some e)
      | inr f =>
          let '(ls, e) := file_lines d b (S idx) rest in
          (mkFileLine idx key (ce_checksum f) (ce_size f) :: ls, e)
      end
  end.

Record ListOutput := mkListOutput {
  lo_header : option (string * RecId * nat);
  lo_lines : list FileLine;
  lo_error : option ListError
}.

(** Modelled from the spec: [len(record.files)], the number of live
    entries of the record's bucket ([list] of section 4.2). *)
Definition files_len (d : Db) (record : RecordObj) : nat :=
  length (index_list d (rec_bucket record)).

(** Modelled from the spec: [record.files.keys], the keys of the
    listing embedded in the record (section 3). *)
Definition files_keys (record : RecordObj) : list string :=
  fs_key <$> rec_files record.

(** The header is printed first, then the lines, until a lookup
    raises. *)
Definition list_files (recid : string) (d : Db) : ListOutput :=
  match record_of d "recid" recid with
  | None => mkListOutput None [] (Some (NoSuchPid recid))
  | Some record =>
      let cnt := files_len d record in
      let '(ls, e) := file_lines d (rec_bucket record) 0 (files_keys record) in
      mkListOutput (Some (recid, rec_id record, cnt)) ls e
  end.

(** ** [split_openaire_grants_dump]

    [OpenAIREGrantsDump.split] lives in another module; the pairs
    (filepath, row_count) it yields are taken as given.  The command
    prints, for each pair, the file, its rows and the running total. *)
Fixpoint split_report (total_rows : Z) (split_files : list (string * Z))
  : list (string * Z * Z) :=
  match split_files with
  | [] => []
  | (filepath, row_count) :: rest =>
      let total_rows := total_rows + row_count in
      (filepath, row_count, total_rows) :: split_report total_rows rest
  end.

Definition split_openaire_grants_dump (split_files : list (string * Z))
  : list (string * Z * Z) :=
  split_report 0 split_files.

Definition rows_of (split_files : list (string * Z)) : Z :=
  foldr (λ f acc, f.2 + acc) 0 split_files.

(** The lines of a listing, numbered from [idx]. *)
Fixpoint numbered (idx : nat) (ss : list FileSummary) : list FileLine :=
  match ss with
  | [] => []
  | s :: rest =>
      mkFileLine idx (fs_key s) (fs_checksum s) (fs_size s)
      :: numbered (S idx) rest
  end.

(** The keys a command names: the only ones it may change. *)
Definition touched (op : Op) (m : Machine) : list string :=
  match op with
  | Add _ _ => [basename (f_name (fp m))]
  | Remove _ key => [key]
  | Rename _ key new_key => [key; new_key]
  | Attach _ _ _ _ _ _ key2 => [str key2]
  end.

(** * Properties *)

(** ** The object-version index *)

Section index_facts.
Implicit Types (vs : list ObjectVersion) (v : ObjectVersion)
  (b : BucketId) (k : string) (f : option FileId).

Lemma find_live_Some vs b k v :
  find_live vs b k = Some v → v ∈ vs ∧ live_at b k v.
Proof.
  unfold find_live. intros H. apply find_some in H as [Hin Hp].
  apply bool_decide_eq_true in Hp. by apply list_elem_of_In in Hin.
Qed.

Lemma find_live_key vs b k v : find_live vs b k = Some v → ov_key v = k.
Proof. intros H. by apply find_live_Some in H as (_ & [_ ?] & _). Qed.

Lemma find_live_None vs b k :
  find_live vs b k = None ↔ ∀ v, v ∈ vs → ¬ live_at b k v.
Proof.
  unfold find_live. split.
  - intros H v Hin Hl. apply list_elem_of_In in Hin.
    eapply find_none in H; [|done].
    by apply bool_decide_eq_false in H.
  - intros H. induction vs as [|x vs IH]; [done|]. simpl.
    rewrite bool_decide_eq_false_2; [|apply H; left].
    apply IH. intros v Hv. apply H. by right.
Qed.

Lemma retire_same b k v : same_key b k v → ¬ live (retire b k v).
Proof.
  intros Hs [Hh _]. unfold retire in Hh.
  by rewrite decide_True in Hh.
Qed.

Lemma retire_other b k v : ¬ same_key b k v → retire b k v = v.
Proof. intros Hs. unfold retire. by rewrite decide_False. Qed.

Lemma retire_same_key b k b' k' v :
  same_key b' k' (retire b k v) ↔ same_key b' k' v.
Proof. unfold retire, same_key. by case_decide. Qed.

Lemma retire_not_live_at b k v : ¬ live_at b k (retire b k v).
Proof.
  intros [Hs Hl]. apply retire_same_key in Hs.
  by apply (retire_same b k v).
Qed.

Lemma find_live_retired vs b k : find_live (retire b k <$> vs) b k = None.
Proof.
  apply find_live_None. intros v Hv.
  apply list_elem_of_fmap in Hv as (w & -> & _). apply retire_not_live_at.
Qed.

Lemma find_live_retire_other vs b k b' k' :
  (b', k') ≠ (b, k) →
  find_live (retire b k <$> vs) b' k' = find_live vs b' k'.
Proof.
  intros Hne. unfold find_live.
  induction vs as [|x vs IH]; [done|]. rewrite fmap_cons. cbn [find].
  destruct (decide (same_key b k x)) as [Hs|Hs].
  - assert (¬ live_at b' k' x) as Hx.
    { intros [[? ?] _]. destruct Hs. apply Hne. congruence. }
    assert (¬ live_at b' k' (retire b k x)) as Hy.
    { intros [Hs' _]. apply retire_same_key in Hs'.
      destruct Hs, Hs'. apply Hne. congruence. }
    by rewrite !bool_decide_eq_false_2.
  - rewrite (retire_other _ _ _ Hs). by rewrite IH.
Qed.

Lemma find_live_app vs ws b k :
  find_live (vs ++ ws) b k =
  match find_live vs b k with
  | Some v => Some v
  | None => find_live ws b k
  end.
Proof.
  unfold find_live. induction vs as [|x vs IH]; [done|]. simpl.
  by case_bool_decide.
Qed.

(** After a [put] the key's live version is the one just made. *)
Lemma find_live_put vs b k fid :
  find_live (appended vs b k (Some fid)) b k
  = Some (new_version vs b k (Some fid)).
Proof.
  unfold appended. rewrite find_live_app, find_live_retired.
  unfold find_live. simpl. rewrite bool_decide_eq_true_2; [done|].
  repeat split; by eauto.
Qed.

(** After a [delete] the key has no live version. *)
Lemma find_live_tombstone vs b k :
  find_live (appended vs b k None) b k = None.
Proof.
  unfold appended. rewrite find_live_app, find_live_retired.
  unfold find_live. simpl. rewrite bool_decide_eq_false_2; [done|].
  intros (_ & _ & Hf). simpl in Hf. by destruct Hf.
Qed.

(** Other keys do not see the appended version. *)
Lemma find_live_appended_other vs b k f b' k' :
  (b', k') ≠ (b, k) →
  find_live (appended vs b k f) b' k' = find_live vs b' k'.
Proof.
  intros Hne. unfold appended.
  rewrite find_live_app, find_live_retire_other by done.
  destruct (find_live vs b' k'); [done|].
  unfold find_live. simpl. rewrite bool_decide_eq_false_2; [done|].
  intros [[? ?] _]. simpl in *. apply Hne. congruence.
Qed.
End index_facts.

(** ** The listing *)

Section listing_facts.
Implicit Types (vs : list ObjectVersion) (st : gmap string ContentEntry).

Lemma summary_key st v s : summary st v = Some s → fs_key s = ov_key v.
Proof.
  unfold summary. intros H.
  destruct (ov_file v) as [f|]; [|done]. simpl in H.
  destruct (st !! f); [|done]. simpl in H. by simplify_eq.
Qed.

Lemma no_key_in_retired st vs b k :
  filter (λ s, fs_key s = k)
         (omap (summary st) (filter (live_in b) (retire b k <$> vs))) = [].
Proof.
  induction vs as [|x vs IH]; [done|].
  rewrite fmap_cons, filter_cons. case_decide as Hl; [|done].
  cbn [omap list_omap]. destruct (summary st (retire b k x)) as [s|] eqn:Hs; [|done].
  rewrite filter_cons. case_decide as Hk; [|done].
  exfalso. apply summary_key in Hs. destruct Hl as [Hb Hlive].
  apply (retire_not_live_at b k x). split; [|done].
  split; [done|congruence].
Qed.

(** After a [put] of stored content the listing has one entry for the
    key. *)
Lemma one_entry_after_put st vs b k fid :
  is_Some (st !! fid) →
  length (filter (λ s, fs_key s = k)
            (omap (summary st) (live_sorted (appended vs b k (Some fid)) b)))
  = 1%nat.
Proof.
  intros [ce Hce]. unfold live_sorted.
  rewrite merge_sort_Permutation. unfold appended.
  rewrite filter_app, omap_app, filter_app, no_key_in_retired.
  assert (live_in b (new_version vs b k (Some fid))) as Hnew.
  { split; [done|]. split; [done|]. by eexists. }
  rewrite filter_cons. rewrite decide_True by done.
  cbn [filter list_filter omap list_omap app].
  unfold summary, new_version. cbn. rewrite Hce. cbn.
  by rewrite decide_True.
Qed.
End listing_facts.

(** ** Running a command symbolically *)

Ltac unfold_cmd :=
  unfold succeeded, run, add_file, remove_file, rename_file, attach_file,
    attach_to, ObjectVersion_create, ObjectVersion_delete, index_put, ingest,
    files_flush, record_commit, db_session_commit, set_locked,
    require_unlocked, files_bucket, resolver_for, record_resolver_resolve,
    deposit_resolver_resolve, resolve, ObjectVersion_get, file_id_of,
    py_assert, fp_seek, fp_tell, fp_name, fp_drain, click_confirm, echo,
    fault, modify, raise, ask, get_machine, put_machine,
    mbind, Cmd_bind, mret, Cmd_ret in *.

Ltac red_cmd :=
  unfold index_get, index_list, listing, locked_in, append_version,
    add_content in *;
  cbn beta iota zeta delta
    [sess disk fp log set_sess set_disk set_fp emit final
     buckets versions store records pids rec_id rec_bucket rec_files
     fst snd] in *.

Ltac map_cleanup :=
  repeat match goal with
  | H : context [<[?i:=_]> _ !! ?i] |- _ => rewrite lookup_insert_eq in H
  | |- context [<[?i:=_]> _ !! ?i] => rewrite lookup_insert_eq
  end.

(** The scrutinee the run is stuck on: the innermost one. *)
Ltac stuck_on c :=
  lazymatch c with
  | context [match ?d with _ => _ end] => stuck_on d
  | _ => c
  end.

Ltac split_run :=
  first
    [ match goal with
      | H : context [match ?c with _ => _ end] |- _ =>
          let d := stuck_on c in destruct d eqn:?
      end
    | match goal with
      | |- context [match ?c with _ => _ end] =>
          let d := stuck_on c in destruct d eqn:?
      end ].

(** What is known of a lookup is used before the run branches on it. *)
Ltac use_known :=
  repeat match goal with
  | H : ?l = Some _ |- context [?l] => rewrite H
  | H : ?l = None |- context [?l] => rewrite H
  | H : ?l = true |- context [?l] => rewrite H
  | H : ?l = false |- context [?l] => rewrite H
  | H : ?l = Some _, H' : context [?l] |- _ =>
      lazymatch type of H' with l = _ => fail | _ => rewrite H in H' end
  | H : ?l = None, H' : context [?l] |- _ =>
      lazymatch type of H' with l = _ => fail | _ => rewrite H in H' end
  | H : ?l = true, H' : context [?l] |- _ =>
      lazymatch type of H' with l = _ => fail | _ => rewrite H in H' end
  | H : ?l = false, H' : context [?l] |- _ =>
      lazymatch type of H' with l = _ => fail | _ => rewrite H in H' end
  end.

Ltac exec :=
  unfold_cmd; red_cmd; use_known; red_cmd;
  repeat (split_run; simplify_eq; red_cmd; map_cleanup; simplify_eq).

(** A run that ended with the success message took the success path. *)
Ltac by_last_echo H :=
  try (rewrite last_snoc in H; simplify_eq).

(** ** Supplied options *)

Lemma truthy_supplied o : truthy o = true ↔ supplied o.
Proof.
  unfold truthy, supplied. destruct o as [s|].
  - rewrite negb_true_iff. split.
    + intros H. exists s. split; [done|]. intros ->. by rewrite String.eqb_refl in H.
    + intros (s' & [= <-] & Hne). by apply String.eqb_neq.
  - split; [done|]. by intros (? & ? & ?).
Qed.

Lemma is_pid_type_valid o : is_pid_type o = true ↔ valid_pid_type o.
Proof.
  unfold is_pid_type, valid_pid_type. destruct o as [s|].
  - rewrite orb_true_iff, !String.eqb_eq. split; intros [?|?]; simplify_eq; auto.
  - split; [done|]. by intros [?|?].
Qed.

Lemma not_truthy o : truthy o = false ↔ ¬ supplied o.
Proof. rewrite <- truthy_supplied. by destruct (truthy o). Qed.

Lemma not_pid_type o : is_pid_type o = false ↔ ¬ valid_pid_type o.
Proof. rewrite <- is_pid_type_valid. by destruct (is_pid_type o). Qed.


(** ** What a successful attach has done *)

Lemma attach_file_success
  file_id pid_type1 pid_value1 key1 pid_type2 pid_value2 key2 env m m' :
  let op := Attach file_id pid_type1 pid_value1 key1
                   pid_type2 pid_value2 key2 in
  succeeded op env m m' →
  ∃ r fid,
    target (sess m) op = Some r
    ∧ log m' = log m
               ++ [SetLocked (rec_bucket r) false;
                   IxCreate (rec_bucket r) (str key2) fid]
               ++ (if decide (pid_type2 = Some "recid")
                   then [SetLocked (rec_bucket r) true] else [])
               ++ [Flush (rec_id r); RecordCommit (rec_id r); DbCommit;
                   Echo MsgAttached]
    ∧ versions (sess m')
      = appended (versions (sess m)) (rec_bucket r) (str key2) (Some fid)
    ∧ locked_in (sess m') (rec_bucket r)
      = Some (bool_decide (pid_type2 = Some "recid"))
    ∧ records (sess m') !! rec_id r
      = Some (mkRecord (rec_id r) (rec_bucket r)
                       (listing (sess m') (rec_bucket r)))
    ∧ disk m' = sess m'.
Proof.
  intros op [Hrun Hlast]. subst op. unfold target.
  exec; by_last_echo Hlast.
  all: rewrite <- !app_assoc; cbn [app].
  all: eexists _, _; (split; [done|]); (split; [reflexivity|]).
  all: rewrite ?lookup_insert_eq; (split; [done|]).
  all: split; [by case_bool_decide|done].
Qed.


(** ** What a run that raises has done *)

Lemma early_step s :
  s ∈ [StepDelete; StepIngest; StepCreate] →
  s = StepDelete ∨ s = StepIngest ∨ s = StepCreate.
Proof.
  rewrite !elem_of_cons, elem_of_nil. intros [?|[?|[?|[]]]]; auto.
Qed.

Lemma run_raise_inv op env m e m' :
  run op env m = Raise e m' →
  disk m' = disk m
  ∧ e ≠ LockConflict
  ∧ (∀ s, e = Failure s →
          s ∈ [StepDelete; StepIngest; StepCreate] →
          ∀ r, target (sess m) op = Some r →
               locked_in (sess m') (rec_bucket r) = Some false).
Proof.
  intros Hrun. destruct op; unfold target; exec.
  all: split; [done|]; split; [done|].
  all: intros ? Hs Hin ? Hr'; simplify_eq.
  all: try (by destruct (early_step _ Hin) as [?|[?|?]]).
  all: by rewrite ?lookup_insert_eq.
Qed.

(** ** What a confirmed remove has done *)

Lemma remove_file_confirmed recid key env m r obj :
  record_of (sess m) "recid" recid = Some r →
  is_Some (buckets (sess m) !! rec_bucket r) →
  index_get (sess m) (rec_bucket r) key = Some obj →
  confirm env = true →
  fails env StepDelete = false →
  let b := rec_bucket r in
  let m' := final (remove_file recid key env m) in
  (∃ rest,
     log m' = log m
              ++ [Echo (MsgWillRemove key (checksum_of (sess m) obj) b);
                  Echo (MsgRecord (rec_id r));
                  SetLocked b false; IxDelete b key; SetLocked b true]
              ++ rest)
  ∧ versions (sess m') = appended (versions (sess m)) b key None
  ∧ locked_in (sess m') b = Some true.
Proof.
  intros Hr [bk Hb] Hg Hc Hf.
  pose proof (find_live_key _ _ _ _ Hg) as Hk.
  exec; rewrite <- ?app_assoc; cbn [app fmap option_fmap option_map];
    (split; [by eexists|done]).
Qed.

(** ** Failure after the unlock *)

(** C1, as stated, fails: when the ingestion of a replacing add fails,
    the exception leaves the session with the bucket unlocked and the
    old file tombstoned. *)
Lemma add_file_failure_leaves_unlocked :
  ∃ m', add_file "1" true env_ingest_fails m_replace
        = Raise (Failure StepIngest) m'
        ∧ locked_in (sess m_replace) 7 = Some true
        ∧ locked_in (sess m') 7 = Some false
        ∧ index_list (sess m_replace) 7 = [demo_version]
        ∧ index_list (sess m') 7 = [].
Proof. eexists. by vm_compute. Qed.

(** C1, amended: an exception in a command propagates at once, with no
    clean-up.  Nothing is committed, so the committed store (the lock
    flags and the listing of every bucket) is as it was before the
    command; and when the failing step is the delete, the ingestion or
    the create, the bucket is left unlocked in the session. *)
Theorem failure_commits_nothing_and_does_not_relock op env m e m' :
  run op env m = Raise e m' →
  disk m' = disk m
  ∧ (∀ s, e = Failure s →
          s ∈ [StepDelete; StepIngest; StepCreate] →
          ∀ r, target (sess m) op = Some r →
               locked_in (sess m') (rec_bucket r) = Some false).
Proof.
  intros Hrun. destruct (run_raise_inv _ _ _ _ _ Hrun) as (Hd & _ & Hl).
  by split.
Qed.

Lemma failure_commits_nothing_and_does_not_relock_witness :
  disk (final (run (Add "1" true) env_ingest_fails m_replace))
  = disk m_replace
  ∧ locked_in (sess (final (run (Add "1" true) env_ingest_fails m_replace)))
              7
    = Some false.
Proof.
  assert (run (Add "1" true) env_ingest_fails m_replace
          = Raise (Failure StepIngest)
                  (final (run (Add "1" true) env_ingest_fails m_replace)))
    as H by (vm_compute; reflexivity).
  destruct (failure_commits_nothing_and_does_not_relock _ _ _ _ _ H)
    as [Hd Hl].
  split; [exact Hd|].
  refine (Hl StepIngest eq_refl _ demo_record _).
  - rewrite !elem_of_cons. right. by left.
  - vm_compute. reflexivity.
Defined.

(** ** Unlocking an unlocked bucket *)

(** C4, as stated, fails: removing a file from a bucket that is already
    unlocked raises nothing and appends the tombstone. *)
Lemma remove_file_on_unlocked_bucket :
  ∃ m', remove_file "1" "a.txt" env_yes m_unlocked = Return tt m'
        ∧ locked_in (sess m_unlocked) 7 = Some false
        ∧ log m' = [Echo (MsgWillRemove "a.txt" (Some "h1") 7);
                    Echo (MsgRecord 10);
                    SetLocked 7 false; IxDelete 7 "a.txt"; SetLocked 7 true;
                    Flush 10; RecordCommit 10; DbCommit; Echo MsgRemoved].
Proof. eexists. by vm_compute. Qed.

(** C4, amended: unlocking is a plain assignment of the lock flag.  On
    any bucket, unlocked ones included, it returns with the flag
    cleared; no command ever raises [LockConflict]; and a confirmed
    remove on an already unlocked bucket goes on to append the
    tombstone and leaves the bucket locked. *)
Theorem unlock_is_unconditional env m :
  (∀ b, ∃ m1, set_locked b false env m = Return tt m1
              ∧ locked_in (sess m1) b = Some false
              ∧ log m1 = log m ++ [SetLocked b false]
              ∧ versions (sess m1) = versions (sess m))
  ∧ (∀ op m', run op env m ≠ Raise LockConflict m')
  ∧ (∀ recid key r obj,
       record_of (sess m) "recid" recid = Some r →
       locked_in (sess m) (rec_bucket r) = Some false →
       index_get (sess m) (rec_bucket r) key = Some obj →
       confirm env = true →
       fails env StepDelete = false →
       let b := rec_bucket r in
       let m' := final (remove_file recid key env m) in
       (∃ pre rest,
          log m' = pre ++ [SetLocked b false; IxDelete b key;
                           SetLocked b true] ++ rest)
       ∧ versions (sess m') = appended (versions (sess m)) b key None
       ∧ locked_in (sess m') b = Some true).
Proof.
  split; [|split].
  - intros b. eexists. split; [reflexivity|]. cbn.
    unfold locked_in. cbn. by rewrite lookup_insert_eq.
  - intros op m' Hrun.
    by destruct (run_raise_inv _ _ _ _ _ Hrun) as (_ & Hne & _).
  - intros recid key r obj Hr Hl Hg Hc Hf b m'.
    assert (is_Some (buckets (sess m) !! rec_bucket r)) as Hb.
    { unfold locked_in in Hl. apply fmap_Some in Hl as (bk & -> & _).
      by eexists. }
    destruct (remove_file_confirmed recid key env m r obj Hr Hb Hg Hc Hf)
      as ([rest Hlog] & Hv & Hk).
    split; [|done].
    exists (log m ++ [Echo (MsgWillRemove key (checksum_of (sess m) obj) b);
                      Echo (MsgRecord (rec_id r))]), rest.
    subst m'. rewrite Hlog, <- !app_assoc. reflexivity.
Qed.

Lemma unlock_is_unconditional_witness :
  locked_in (sess (final (remove_file "1" "a.txt" env_yes m_unlocked))) 7
  = Some true
  ∧ versions (sess (final (remove_file "1" "a.txt" env_yes m_unlocked)))
    = appended (versions (sess m_unlocked)) 7 "a.txt" None.
Proof.
  destruct (unlock_is_unconditional env_yes m_unlocked) as (_ & _ & H).
  destruct (H "1" "a.txt" demo_record demo_version) as (_ & Hv & Hl);
    try (vm_compute; reflexivity).
  split; [exact Hl|exact Hv].
Defined.

(** C2, as stated, fails: attaching to a deposit whose bucket was
    locked succeeds and leaves that bucket unlocked, in the session and
    in the committed store. *)
Lemma attach_to_deposit_leaves_unlocked :
  ∃ m', succeeded attach_to_deposit env_yes m_new m'
        ∧ locked_in (sess m_new) 8 = Some true
        ∧ locked_in (sess m') 8 = Some false
        ∧ locked_in (disk m') 8 = Some false.
Proof. eexists. by vm_compute. Qed.

(** C2, amended: a successful attach unlocks the target bucket, creates
    the new version on it, and relocks the bucket exactly when the
    target was given as a 'recid'; for a 'depid' the bucket stays
    unlocked.  The state reached is the committed one. *)
Theorem attach_file_relocks_records_only
  file_id pid_type1 pid_value1 key1 pid_type2 pid_value2 key2 env m m' :
  succeeded (Attach file_id pid_type1 pid_value1 key1
                    pid_type2 pid_value2 key2) env m m' →
  ∃ r fid,
    target (sess m) (Attach file_id pid_type1 pid_value1 key1
                            pid_type2 pid_value2 key2) = Some r
    ∧ log m' = log m
               ++ [SetLocked (rec_bucket r) false;
                   IxCreate (rec_bucket r) (str key2) fid]
               ++ (if decide (pid_type2 = Some "recid")
                   then [SetLocked (rec_bucket r) true] else [])
               ++ [Flush (rec_id r); RecordCommit (rec_id r); DbCommit;
                   Echo MsgAttached]
    ∧ index_get (sess m') (rec_bucket r) (str key2)
      = Some (new_version (versions (sess m)) (rec_bucket r) (str key2)
                          (Some fid))
    ∧ locked_in (sess m') (rec_bucket r)
      = Some (bool_decide (pid_type2 = Some "recid"))
    ∧ disk m' = sess m'.
Proof.
  intros Hs.
  destruct (attach_file_success _ _ _ _ _ _ _ _ _ _ Hs)
    as (r & fid & Ht & Hl & Hv & Hk & _ & Hd).
  exists r, fid. repeat split; try done.
  unfold index_get. rewrite Hv. apply find_live_put.
Qed.

(** Attaching to deposit "2". *)
Lemma attach_file_relocks_records_only_witness :
  ∃ r, target (sess m_new) attach_to_deposit = Some r
       ∧ locked_in (sess (final (run attach_to_deposit env_yes m_new)))
                   (rec_bucket r)
         = Some false.
Proof.
  assert (succeeded attach_to_deposit env_yes m_new
            (final (run attach_to_deposit env_yes m_new))) as H
    by (split; vm_compute; reflexivity).
  destruct (attach_file_relocks_records_only _ _ _ _ _ _ _ _ _ _ H)
    as (r & fid & Ht & _ & _ & Hl & _).
  exists r. split; [exact Ht|exact Hl].
Defined.

(** ** Metadata synchronisation *)

Lemma snoc4 {A} (l : list A) a b c d :
  (((l ++ [a]) ++ [b]) ++ [c]) ++ [d] = l ++ [a; b; c; d].
Proof. by rewrite <- !app_assoc. Qed.

(** C3: a successful add, remove, rename or attach ends with the flush
    of the record's listing, the record commit and the session commit,
    in this order, and the committed record then embeds exactly the
    (key, checksum, size) projection of the committed live versions of
    its bucket. *)
Theorem listing_consistent_after_success op env m m' :
  succeeded op env m m' →
  ∃ r pre,
    target (sess m) op = Some r
    ∧ log m' = pre ++ [Flush (rec_id r); RecordCommit (rec_id r); DbCommit;
                       Echo (success_msg op)]
    ∧ records (disk m') !! rec_id r
      = Some (mkRecord (rec_id r) (rec_bucket r)
                       (listing (disk m') (rec_bucket r))).
Proof.
  intros Hs. destruct op.
  4: { destruct (attach_file_success _ _ _ _ _ _ _ _ _ _ Hs)
         as (r & fid & Ht & Hl & _ & _ & Hr & Hd).
       exists r. eexists. split; [done|]. rewrite Hd. split; [|done].
       rewrite Hl, !app_assoc. reflexivity. }
  all: destruct Hs as [Hrun Hlast].
  all: unfold target; exec; by_last_echo Hlast.
  all: rewrite snoc4; eexists _, _; (split; [done|]).
  all: split; [reflexivity|apply lookup_insert_eq].
Qed.

(** Removing "a.txt" from record "1". *)
Lemma listing_consistent_after_success_witness :
  ∃ r, target (sess m_new) (Remove "1" "a.txt") = Some r
       ∧ records (disk (final (run (Remove "1" "a.txt") env_yes m_new)))
         !! rec_id r
         = Some (mkRecord (rec_id r) (rec_bucket r)
                   (listing
                      (disk (final (run (Remove "1" "a.txt") env_yes m_new)))
                      (rec_bucket r))).
Proof.
  assert (succeeded (Remove "1" "a.txt") env_yes m_new
            (final (run (Remove "1" "a.txt") env_yes m_new))) as H
    by (split; vm_compute; reflexivity).
  destruct (listing_consistent_after_success _ _ _ _ H)
    as (r & pre & Ht & _ & Hr).
  exists r. split; [exact Ht|exact Hr].
Defined.

(** ** The size of the file to add *)

Lemma seek_end_inv f z :
  seek_target f SEEK_SET SEEK_END = Some z → z = file_len f.
Proof. unfold seek_target, SEEK_SET, SEEK_END. cbn. intros [= <-]. lia. Qed.

Lemma seek_set_inv f off z : seek_target f off 0 = Some z → z = off.
Proof. unfold seek_target. cbn. by intros [= <-]. Qed.

Ltac seek_facts :=
  repeat match goal with
  | H : seek_target _ SEEK_SET SEEK_END = Some _ |- _ =>
      apply seek_end_inv in H; subst
  | H : seek_target _ SEEK_SET 0 = Some _ |- _ =>
      apply seek_set_inv in H; subst
  end;
  cbn [f_name f_content f_pos f_drains f_nread with_pos drained file_len] in *.

(** C5, as stated, fails: [add_file] knows the size of the file, and
    prints it, without having read a byte of the stream. *)
Lemma add_file_sizes_without_reading :
  let m := demo_machine true true "/tmp/b.txt" in
  ∃ m', add_file "1" false (demo_env false []) m = Return tt m'
        ∧ log m' = [Echo (MsgWillAdd "b.txt" 7 2); Echo (MsgRecord 10);
                    Echo MsgAddAborted]
        ∧ f_drains (fp m') = 0%nat
        ∧ f_nread (fp m') = 0.
Proof. eexists. by vm_compute. Qed.

(** C5, amended: [add_file] obtains the size by seeking to the end of
    the stream and reading the offset, and rewinds; no byte is read for
    it.  A run reads the stream to its end at most once, a successful
    run exactly once and from the start, in [ObjectVersion.create],
    which is given the stream's own length as the size: [add_file]
    never fails with [SizeMismatch]. *)
Theorem add_file_size_by_seek recid replace_existing env m :
  (∀ m', add_file recid replace_existing env m ≠ Raise SizeMismatch m')
  ∧ (f_drains (fp (final (add_file recid replace_existing env m)))
     ≤ S (f_drains (fp m)))%nat
  ∧ (∀ m',
       add_file recid replace_existing env m = Return tt m' →
       last (log m') = Some (Echo MsgAddAborted) →
       (∃ k b, Echo (MsgWillAdd k b (file_len (fp m))) ∈ log m')
       ∧ f_drains (fp m') = f_drains (fp m)
       ∧ f_nread (fp m') = f_nread (fp m))
  ∧ (∀ m',
       succeeded (Add recid replace_existing) env m m' →
       (∃ k b, Echo (MsgWillAdd k b (file_len (fp m))) ∈ log m')
       ∧ f_drains (fp m') = S (f_drains (fp m))
       ∧ f_nread (fp m') = f_nread (fp m) + file_len (fp m)).
Proof.
  split; [|split; [|split]].
  - intros m' Hrun. exec; seek_facts.
    all: match goal with H : _ ≠ _ |- _ => by apply H end.
  - exec; seek_facts; lia.
  - intros m' Hrun Hlast. exec; by_last_echo Hlast; seek_facts.
    all: split; [|done].
    all: eexists _, _; rewrite !elem_of_app, !list_elem_of_singleton;
      naive_solver.
  - intros m' [Hrun Hlast]. exec; by_last_echo Hlast; seek_facts.
    all: split; [|done].
    all: eexists _, _; rewrite !elem_of_app, !list_elem_of_singleton;
      naive_solver.
Qed.

(** Adding the two-byte file "b.txt". *)
Lemma add_file_size_by_seek_witness :
  f_drains (fp (final (run (Add "1" false) env_yes m_new))) = 1%nat
  ∧ f_nread (fp (final (run (Add "1" false) env_yes m_new))) = 2.
Proof.
  assert (succeeded (Add "1" false) env_yes m_new
            (final (run (Add "1" false) env_yes m_new))) as H
    by (split; vm_compute; reflexivity).
  destruct (add_file_size_by_seek "1" false env_yes m_new)
    as (_ & _ & _ & Hs).
  destruct (Hs _ H) as (_ & Hd & Hn). split; [exact Hd|exact Hn].
Defined.

(** ** Rename *)

(** C6: after a successful rename of a live key to a key that is not
    live, the new key's version carries the file id of the old key's
    version, the old key has no live version, and no content was
    stored or read for it; the session state is the committed one. *)
Theorem rename_file_zero_copy recid key new_key env m m' r obj :
  record_of (sess m) "recid" recid = Some r →
  index_get (sess m) (rec_bucket r) key = Some obj →
  index_get (sess m) (rec_bucket r) new_key = None →
  succeeded (Rename recid key new_key) env m m' →
  (∃ v, index_get (sess m') (rec_bucket r) new_key = Some v
        ∧ ov_file v = ov_file obj)
  ∧ index_get (sess m') (rec_bucket r) key = None
  ∧ store (sess m') = store (sess m)
  ∧ fp m' = fp m
  ∧ disk m' = sess m'.
Proof.
  intros Hr Hg Hn [Hrun Hlast].
  assert (key ≠ new_key) as Hne by (intros ->; congruence).
  pose proof (find_live_key _ _ _ _ Hg) as Hk.
  exec; by_last_echo Hlast.
  repeat split; [| |done..].
  - eexists. by rewrite find_live_put.
  - rewrite find_live_appended_other by congruence.
    apply find_live_tombstone.
Qed.

(** Renaming "a.txt" to "b.txt" on record "1". *)
Lemma rename_file_zero_copy_witness :
  (∃ v, index_get
          (sess (final (run (Rename "1" "a.txt" "b.txt") env_yes m_new)))
          7 "b.txt" = Some v
        ∧ ov_file v = Some "h1")
  ∧ index_get (sess (final (run (Rename "1" "a.txt" "b.txt") env_yes m_new)))
              7 "a.txt" = None.
Proof.
  assert (succeeded (Rename "1" "a.txt" "b.txt") env_yes m_new
            (final (run (Rename "1" "a.txt" "b.txt") env_yes m_new))) as H
    by (split; vm_compute; reflexivity).
  destruct (rename_file_zero_copy "1" "a.txt" "b.txt" env_yes m_new
              (final (run (Rename "1" "a.txt" "b.txt") env_yes m_new))
              demo_record demo_version) as (Hn & Ho & _);
    [vm_compute; reflexivity..|exact H|].
  split; [exact Hn|exact Ho].
Defined.

(** ** Add *)

Lemma stored_is_Some (st : gmap string ContentEntry) id ce :
  is_Some (stored st id ce !! id).
Proof.
  unfold stored. destruct (st !! id) eqn:E; [by rewrite E|].
  rewrite lookup_insert_eq. by eexists.
Qed.

(** C7: when the key of the file to add has a live version,
    [add_file] without [--replace-existing] reports "already exists"
    and changes nothing; with it, a successful run has tombstoned the
    old version before it created the new one, and the record's
    committed listing has exactly one entry for the key. *)
Theorem add_file_existing_key recid env m r obj :
  record_of (sess m) "recid" recid = Some r →
  is_Some (buckets (sess m) !! rec_bucket r) →
  index_get (sess m) (rec_bucket r) (basename (f_name (fp m))) = Some obj →
  let b := rec_bucket r in
  let key := basename (f_name (fp m)) in
  add_file recid false env m
  = Return tt (emit (Echo (MsgAlreadyExists key)) m)
  ∧ (∀ m',
       succeeded (Add recid true) env m m' →
       ∃ fid r',
         (∃ pre rest,
            log m' = pre ++ [IxDelete b key; IxCreate b key fid] ++ rest)
         ∧ versions (sess m')
           = appended (appended (versions (sess m)) b key None)
                      b key (Some fid)
         ∧ records (disk m') !! rec_id r = Some r'
         ∧ rec_files r' = listing (disk m') b
         ∧ length (filter (λ s, fs_key s = key) (rec_files r')) = 1%nat).
Proof.
  intros Hr [bk Hb] Hg b key. subst b key.
  pose proof (find_live_key _ _ _ _ Hg) as Hk. split.
  - exec. done.
  - intros m' [Hrun Hlast]. exec; by_last_echo Hlast.
    rewrite Hk in *. rewrite <- !app_assoc. cbn [app].
    eexists _, _. split; [|split; [done|]].
    + eexists (log m ++ [_; _; _; _]), _.
      rewrite <- (app_assoc (log m)). cbn [app]. reflexivity.
    + split; [done|]. split; [done|].
      apply one_entry_after_put, stored_is_Some.
Qed.

(** Adding "a.txt" again, without and with replacement. *)
Lemma add_file_existing_key_witness :
  add_file "1" false env_yes m_replace
  = Return tt (emit (Echo (MsgAlreadyExists "a.txt")) m_replace)
  ∧ ∃ r', records (disk (final (run (Add "1" true) env_yes m_replace)))
          !! 10%nat = Some r'
          ∧ length (filter (λ s, fs_key s = "a.txt") (rec_files r')) = 1%nat.
Proof.
  assert (succeeded (Add "1" true) env_yes m_replace
            (final (run (Add "1" true) env_yes m_replace))) as H
    by (split; vm_compute; reflexivity).
  destruct (add_file_existing_key "1" env_yes m_replace
              demo_record demo_version) as (Hf & Hs);
    [vm_compute; reflexivity|by eexists|vm_compute; reflexivity|].
  split; [exact Hf|].
  destruct (Hs _ H) as (fid & r' & _ & _ & Hr & _ & Hn).
  exists r'. split; [exact Hr|exact Hn].
Defined.

(** ** Remove *)

(** C8: [remove_file] reports "not found" and changes nothing when the
    key has no live version; otherwise, once the operator has confirmed
    and [delete] does not fail, it unlocks the bucket, appends a
    tombstone for the key and relocks the bucket, whatever happens to
    the flush and the commits that follow. *)
Theorem remove_file_protocol recid key env m r :
  record_of (sess m) "recid" recid = Some r →
  is_Some (buckets (sess m) !! rec_bucket r) →
  (index_get (sess m) (rec_bucket r) key = None →
   remove_file recid key env m = Return tt (emit (Echo (MsgNotFound key)) m))
  ∧ (∀ obj,
       index_get (sess m) (rec_bucket r) key = Some obj →
       confirm env = true →
       fails env StepDelete = false →
       let b := rec_bucket r in
       let m' := final (remove_file recid key env m) in
       (∃ rest,
          log m' = log m
                   ++ [Echo (MsgWillRemove key (checksum_of (sess m) obj) b);
                       Echo (MsgRecord (rec_id r));
                       SetLocked b false; IxDelete b key; SetLocked b true]
                   ++ rest)
       ∧ versions (sess m') = appended (versions (sess m)) b key None
       ∧ locked_in (sess m') b = Some true).
Proof.
  intros Hr Hb. split.
  - destruct Hb as [bk Hb]. intros Hg. exec. done.
  - intros obj Hg Hc Hf. by apply remove_file_confirmed.
Qed.

(** Removing "a.txt" from record "1", and a key that is not there. *)
Lemma remove_file_protocol_witness :
  versions (sess (final (remove_file "1" "a.txt" env_yes m_new)))
  = appended (versions (sess m_new)) 7 "a.txt" None
  ∧ locked_in (sess (final (remove_file "1" "a.txt" env_yes m_new))) 7
    = Some true
  ∧ remove_file "1" "zz" env_yes m_new
    = Return tt (emit (Echo (MsgNotFound "zz")) m_new).
Proof.
  destruct (remove_file_protocol "1" "a.txt" env_yes m_new demo_record)
    as (_ & Hs); [vm_compute; reflexivity|by eexists|].
  destruct (Hs demo_version) as (_ & Hv & Hl);
    [vm_compute; reflexivity..|].
  destruct (remove_file_protocol "1" "zz" env_yes m_new demo_record)
    as (Hn & _); [vm_compute; reflexivity|by eexists|].
  split; [exact Hv|]. split; [exact Hl|].
  apply Hn. vm_compute. reflexivity.
Defined.

(** ** Attach *)

Lemma resolver_for_valid ty :
  valid_pid_type (Some ty) → resolver_for (Some ty) = resolve ty.
Proof.
  unfold resolver_for. intros [[= ->]|[= ->]]; [done|].
  by rewrite decide_False.
Qed.

(** C9: when the source of [attach_file] is given by pid and key and the
    key has no live version in the source bucket, the command reports
    "not found" and returns in the machine it started in: no bucket, no
    index entry and no record, of the target or otherwise, is touched
    in the session or in the committed store. *)
Theorem attach_file_missing_source_untouched
  file_id ty1 pv1 k1 pid_type2 pid_value2 key2 env m r1 :
  ¬ supplied file_id →
  attach_requires file_id (Some ty1) (Some pv1) (Some k1)
                  pid_type2 pid_value2 key2 →
  record_of (sess m) ty1 pv1 = Some r1 →
  is_Some (buckets (sess m) !! rec_bucket r1) →
  index_get (sess m) (rec_bucket r1) k1 = None →
  ∃ m', attach_file file_id (Some ty1) (Some pv1) (Some k1)
                    pid_type2 pid_value2 key2 env m = Return tt m'
        ∧ log m' = log m ++ [Echo (MsgNotFound k1)]
        ∧ sess m' = sess m ∧ disk m' = disk m ∧ fp m' = fp m.
Proof.
  intros Hf (H1 & (H2 & H3 & H4) & H5 & H6) Hr [bk Hb] Hg.
  destruct H1 as [?|(Ht1 & Hv1 & Hk1)]; [done|].
  specialize (H5 Ht1). specialize (H6 H2).
  apply not_truthy in Hf.
  apply truthy_supplied in Ht1, Hv1, Hk1, H2, H3, H4.
  apply is_pid_type_valid in H6. pose proof H5 as H5'.
  apply is_pid_type_valid in H5'.
  unfold attach_file. rewrite Hf, Ht1, Hv1, Hk1, H2, H3, H4, H5', H6.
  rewrite (resolver_for_valid _ H5).
  change (str (Some pv1)) with pv1. change (str (Some k1)) with k1.
  eexists. exec. done.
Qed.

(** Attaching the missing key "zz" of deposit "2" to record "1". *)
Lemma attach_file_missing_source_untouched_witness :
  ∃ m', run attach_to_record env_yes m_new = Return tt m'
        ∧ log m' = log m_new ++ [Echo (MsgNotFound "zz")]
        ∧ sess m' = sess m_new ∧ disk m' = disk m_new ∧ fp m' = fp m_new.
Proof.
  apply (attach_file_missing_source_untouched
           None "depid" "2" "zz" (Some "recid") (Some "1") (Some "c.txt")
           env_yes m_new demo_deposit).
  - intros (s & Hs & _). discriminate Hs.
  - split; [|split; [|split]].
    + right. repeat split; eexists; (split; [reflexivity|discriminate]).
    + repeat split; eexists; (split; [reflexivity|discriminate]).
    + intros _. by right.
    + intros _. by left.
  - vm_compute. reflexivity.
  - by eexists.
  - vm_compute. reflexivity.
Defined.

(** ** The assertions of [attach_file] *)

(** C10: [attach_file] asserts its precondition first: a file id or
    all of source pid type, pid value and key; all of target pid type,
    pid value and key; every supplied pid type 'recid' or 'depid'.  A
    violation raises [AssertionError] in the untouched machine, and
    nothing else in the command raises it. *)
Theorem attach_file_asserts_precondition
  file_id pid_type1 pid_value1 key1 pid_type2 pid_value2 key2 env m :
  (¬ attach_requires file_id pid_type1 pid_value1 key1
       pid_type2 pid_value2 key2 →
   ∃ msg, attach_file file_id pid_type1 pid_value1 key1
            pid_type2 pid_value2 key2 env m
          = Raise (AssertionError msg) m)
  ∧ (attach_requires file_id pid_type1 pid_value1 key1
       pid_type2 pid_value2 key2 →
     ∀ msg m', attach_file file_id pid_type1 pid_value1 key1
                 pid_type2 pid_value2 key2 env m
               ≠ Raise (AssertionError msg) m').
Proof.
  unfold attach_requires. rewrite <- !truthy_supplied, <- !is_pid_type_valid.
  split.
  - intros Hn. unfold attach_file, py_assert, mbind, Cmd_bind, raise, mret, Cmd_ret.
    destruct (truthy file_id), (truthy pid_type1) eqn:?, (truthy pid_value1), (truthy key1),
      (truthy pid_type2) eqn:?, (truthy pid_value2), (truthy key2); cbn; eauto;
    destruct (is_pid_type pid_type1) eqn:?; cbn; eauto;
    destruct (is_pid_type pid_type2) eqn:?; cbn; eauto;
    exfalso; apply Hn; intuition congruence.
  - intros (H1 & (H2 & H3 & H4) & H5 & H6) msg m' H.
    specialize (H6 H2). 
    unfold attach_file in H. rewrite H2, H3, H4, H6 in H.
    assert ((truthy file_id || truthy pid_type1 && truthy pid_value1 && truthy key1) = true) as Ha.
    { destruct H1 as [->|(-> & -> & ->)]; [done|]. by rewrite orb_true_r. }
    rewrite Ha in H. 
    assert ((if truthy pid_type1 then py_assert (is_pid_type pid_type1) pid_type_msg else mret tt) env m = Return tt m) as Hb.
    { destruct (truthy pid_type1); [|done]. by rewrite H5. }
    unfold mbind at 1 2 3, Cmd_bind at 1 2 3 in H. cbn [andb py_assert] in H.
    unfold mret at 1, Cmd_ret at 1 in H. rewrite Hb in H.
    unfold mret at 1, Cmd_ret at 1 in H.
    clear Ha Hb H1 H2 H3 H4 H5 H6.
    exec.
Qed.

(** The assertion fails when nothing is supplied. *)
Lemma attach_file_asserts_precondition_witness :
  ∃ msg, attach_file None None None None None None None env_yes m_new
         = Raise (AssertionError msg) m_new.
Proof.
  apply (attach_file_asserts_precondition
           None None None None None None None env_yes m_new).
  intros ([(s & Hs & _)|((s & Hs & _) & _)] & _); discriminate Hs.
Defined.

(** * Further properties of the commands *)

(** * Further properties *)

(** ** The key of an added file *)

Lemma has_slash_append d n :
  has_slash (String.append d (String "/" n)) = true.
Proof.
  induction d as [|c d IH].
  - cbn. done.
  - change (Ascii.eqb c "/"
            || has_slash (String.append d (String "/" n)) = true).
    rewrite IH. apply orb_true_r.
Qed.

(** X1: [basename], which gives [add_file] its key, returns a name
    without a slash; it returns a path without a slash as it is, and
    the last component of a path that has one. *)
Theorem basename_is_last_component p d n :
  has_slash (basename p) = false
  ∧ (has_slash p = false → basename p = p)
  ∧ (has_slash n = false → basename (String.append d (String "/" n)) = n).
Proof.
  split; [|split].
  - induction p as [|c r IH]; [done|]. cbn.
    destruct (has_slash r) eqn:Hr; [done|].
    destruct (Ascii.eqb c "/") eqn:Hc; [done|]. cbn. by rewrite Hc, Hr.
  - destruct p as [|c r]; [done|]. cbn. intros H.
    apply orb_false_elim in H as [Hc Hr]. by rewrite Hr, Hc.
  - intros Hn. induction d as [|c d IH].
    + change (basename (String "/" n) = n). cbn [basename].
      by rewrite Hn.
    + change (basename (String c (String.append d (String "/" n))) = n).
      cbn [basename]. by rewrite has_slash_append.
Qed.

Lemma basename_is_last_component_witness :
  basename (String.append "/tmp/files" (String "/" "b.txt")) = "b.txt".
Proof.
  apply (basename_is_last_component "b.txt" "/tmp/files" "b.txt").
  reflexivity.
Defined.

(** ** The report of [split_openaire_grants_dump] *)

Lemma split_report_length a files :
  length (split_report a files) = length files.
Proof.
  revert a. induction files as [|[p n] files IH]; intros a; [done|].
  cbn. by rewrite IH.
Qed.

Lemma split_report_lookup a files i p n t :
  split_report a files !! i = Some (p, n, t) →
  files !! i = Some (p, n) ∧ t = a + rows_of (take (S i) files).
Proof.
  revert a i. induction files as [|[q k] files IH]; intros a i; [done|].
  destruct i as [|i].
  - cbn [split_report lookup list_lookup]. intros [= -> -> <-].
    split; [done|].
    change (take 1 ((p, n) :: files)) with ((p, n) :: take 0 files).
    rewrite take_0. unfold rows_of. cbn. lia.
  - cbn [split_report lookup list_lookup]. intros H.
    apply IH in H as [Hf ->]. split; [done|].
    change (take (S (S i)) ((q, k) :: files))
      with ((q, k) :: take (S i) files).
    unfold rows_of. cbn [foldr snd]. lia.
Qed.

(** X2: [split_openaire_grants_dump] prints one line per split file, in
    order; the total on a line is the sum of the rows of the files up
    to and including it, so the last line carries the rows of the
    whole dump. *)
Theorem split_report_running_total files :
  length (split_openaire_grants_dump files) = length files
  ∧ (∀ i p n t,
       split_openaire_grants_dump files !! i = Some (p, n, t) →
       files !! i = Some (p, n) ∧ t = rows_of (take (S i) files))
  ∧ (∀ p n t,
       last (split_openaire_grants_dump files) = Some (p, n, t) →
       t = rows_of files).
Proof.
  unfold split_openaire_grants_dump. split; [|split].
  - apply split_report_length.
  - intros i p n t H. apply split_report_lookup in H as [Hf ->].
    split; [done|]. lia.
  - intros p n t H. rewrite last_lookup, split_report_length in H.
    apply split_report_lookup in H as [Hf ->].
    rewrite take_ge; [lia|].
    apply lookup_lt_Some in Hf. lia.
Qed.

Lemma split_report_running_total_witness :
  [("a.db", 3); ("b.db", 4); ("c.db", 5)] !! 1%nat = Some ("b.db", 4)
  ∧ 7 = rows_of (take 2 [("a.db", 3); ("b.db", 4); ("c.db", 5)]).
Proof.
  destruct (split_report_running_total
              [("a.db", 3); ("b.db", 4); ("c.db", 5)]) as (_ & H & _).
  apply (H 1%nat "b.db" 4 7). reflexivity.
Defined.

(** ** The history of a bucket *)

Lemma history_entry_retire b k v :
  history_entry (retire b k v) = history_entry v.
Proof. unfold retire. by case_decide. Qed.

Lemma history_appended vs b k f :
  history (appended vs b k f)
  = history vs ++ [history_entry (new_version vs b k f)].
Proof.
  unfold history, appended. rewrite fmap_app, <- list_fmap_compose.
  f_equal. apply list_fmap_ext. intros i v _. apply history_entry_retire.
Qed.

Lemma history_grows vs b k f : history vs `prefix_of` history (appended vs b k f).
Proof. rewrite history_appended. by eexists. Qed.

Lemma head_at_retire_other b k b' k' v :
  (b', k') ≠ (b, k) → head_at b' k' (retire b k v) ↔ head_at b' k' v.
Proof.
  intros Hne. unfold retire. case_decide as Hs; [|done].
  unfold head_at, same_key in *. cbn. split.
  - intros [[? ?] _]. destruct Hs. destruct Hne. congruence.
  - intros [[? ?] _]. destruct Hs. destruct Hne. congruence.
Qed.

Lemma no_head_in_retired vs b k :
  filter (head_at b k) (retire b k <$> vs) = [].
Proof.
  induction vs as [|x vs IH]; [done|]. rewrite fmap_cons, filter_cons.
  rewrite decide_False; [done|].
  intros [Hs Hh]. apply retire_same_key in Hs.
  unfold retire in Hh. by rewrite decide_True in Hh.
Qed.

Lemma heads_of_other_keys vs b k b' k' :
  (b', k') ≠ (b, k) →
  length (filter (head_at b' k') (retire b k <$> vs))
  = length (filter (head_at b' k') vs).
Proof.
  intros Hne. induction vs as [|x vs IH]; [done|].
  rewrite fmap_cons, !filter_cons.
  destruct (decide (head_at b' k' x)) as [Hx|Hx].
  - rewrite decide_True by by apply head_at_retire_other. cbn. by rewrite IH.
  - rewrite decide_False; [done|].
    intros H. by apply head_at_retire_other in H.
Qed.

Lemma unique_heads_appended vs b k f :
  unique_heads vs → unique_heads (appended vs b k f).
Proof.
  intros Hu b' k'. unfold appended. rewrite filter_app, length_app.
  destruct (decide ((b', k') = (b, k))) as [[= -> ->]|Hne].
  - rewrite no_head_in_retired. cbn. case_decide; cbn; lia.
  - rewrite heads_of_other_keys by done.
    rewrite filter_cons, decide_False.
    + rewrite filter_nil. cbn. specialize (Hu b' k'). lia.
    + intros [[? ?] _]. cbn in *. destruct Hne. congruence.
Qed.

(** X3: no command erases or rewrites a version: whatever a run does
    and however it ends, the history of versions it leaves in the
    session extends the one it found. *)
Theorem history_is_append_only op env m :
  history (versions (sess m))
  `prefix_of` history (versions (sess (final (run op env m)))).
Proof.
  destruct op; exec.
  all: repeat (etrans; [|apply history_grows]); done.
Qed.

Lemma run_keeps_unique_heads op env m :
  unique_heads (versions (sess m)) →
  unique_heads (versions (sess (final (run op env m)))).
Proof.
  intros Hu. destruct op; exec.
  all: auto using unique_heads_appended.
Qed.

(** X4: every command keeps the index well formed: if each key of each
    bucket had at most one is-latest version before a run, so it has
    after it, however the run ends. *)
Theorem unique_heads_preserved op env m :
  unique_heads (versions (sess m)) →
  unique_heads (versions (sess (final (run op env m)))).
Proof. apply run_keeps_unique_heads. Qed.

Lemma unique_heads_preserved_witness :
  unique_heads
    (versions (sess (final (run (Add "1" true) env_yes m_replace)))).
Proof.
  apply (unique_heads_preserved (Add "1" true) env_yes m_replace).
  intros b k. vm_compute versions.
  rewrite filter_cons, filter_nil. case_decide; cbn; lia.
Defined.

(** ** What a run may change *)

(** X5: the committed store changes only in a run that ends with the
    success message: every other run, whether it returns or raises,
    leaves the committed store exactly as it was. *)
Theorem commit_only_on_success op env m :
  disk (final (run op env m)) = disk m
  ∨ succeeded op env m (final (run op env m)).
Proof.
  destruct op; exec.
  all: first [by left | right; split; [done|by rewrite last_snoc]].
Qed.

(** X6: when the operator declines the prompt, a command changes
    neither the session nor the committed store, however it ends. *)
Theorem declined_changes_nothing op env m :
  confirm env = false →
  sess (final (run op env m)) = sess m
  ∧ disk (final (run op env m)) = disk m.
Proof.
  intros Hc. destruct op; exec; done.
Qed.

Lemma declined_changes_nothing_witness :
  sess (final (run (Remove "1" "a.txt") env_no m_new)) = sess m_new
  ∧ disk (final (run (Remove "1" "a.txt") env_no m_new)) = disk m_new.
Proof.
  apply (declined_changes_nothing (Remove "1" "a.txt") env_no m_new).
  reflexivity.
Defined.

(** X7: a command that returns without its success message (the key
    was not found, the key already exists, the operator declined) has
    changed neither the session nor the committed store. *)
Theorem refusal_changes_nothing op env m m' :
  run op env m = Return tt m' →
  last (log m') ≠ Some (Echo (success_msg op)) →
  sess m' = sess m ∧ disk m' = disk m.
Proof.
  intros Hrun Hlast. destruct op; exec; try done.
  all: by rewrite last_snoc in Hlast.
Qed.

Lemma refusal_changes_nothing_witness :
  sess (final (run (Rename "1" "a.txt" "a.txt") env_yes m_new)) = sess m_new
  ∧ disk (final (run (Rename "1" "a.txt" "a.txt") env_yes m_new))
    = disk m_new.
Proof.
  apply (refusal_changes_nothing (Rename "1" "a.txt" "a.txt") env_yes m_new).
  - vm_compute. reflexivity.
  - vm_compute. discriminate.
Defined.

(** X8: a run touches one bucket only: the lock flag and every key of
    any other bucket are in the session as they were, however the run
    ends.  In particular an attach never changes its source bucket
    when that is not the target. *)
Theorem other_buckets_untouched op env m r b' :
  target (sess m) op = Some r →
  b' ≠ rec_bucket r →
  locked_in (sess (final (run op env m))) b' = locked_in (sess m) b'
  ∧ ∀ k, index_get (sess (final (run op env m))) b' k
         = index_get (sess m) b' k.
Proof.
  intros Ht Hb. destruct op; unfold target in Ht; exec.
  all: rewrite ?lookup_insert_ne by done.
  all: split; [done|intros k'].
  all: by rewrite ?find_live_appended_other by congruence.
Qed.

Lemma other_buckets_untouched_witness :
  locked_in (sess (final (run attach_to_deposit env_yes m_new))) 7
  = locked_in (sess m_new) 7
  ∧ ∀ k, index_get (sess (final (run attach_to_deposit env_yes m_new))) 7 k
         = index_get (sess m_new) 7 k.
Proof.
  apply (other_buckets_untouched attach_to_deposit env_yes m_new
           demo_deposit 7).
  - vm_compute. reflexivity.
  - vm_compute. discriminate.
Defined.

(** X9: after a successful add, remove or rename the bucket is locked
    in the committed store, whatever its lock state was before; after a
    successful attach it is locked exactly when the target was given
    as a 'recid'. *)
Theorem success_commits_lock_state op env m m' :
  succeeded op env m m' →
  ∃ r, target (sess m) op = Some r
       ∧ locked_in (disk m') (rec_bucket r)
         = Some (match op with
                 | Attach _ _ _ _ pid_type2 _ _ =>
                     bool_decide (pid_type2 = Some "recid")
                 | _ => true
                 end).
Proof.
  intros Hs. destruct op.
  4: { destruct (attach_file_success _ _ _ _ _ _ _ _ _ _ Hs)
         as (r & fid & Ht & _ & _ & Hl & _ & Hd).
       exists r. split; [done|]. by rewrite Hd. }
  all: destruct Hs as [Hrun Hlast].
  all: unfold target; exec; by_last_echo Hlast.
  all: eexists; (split; [done|]); by rewrite lookup_insert_eq.
Qed.

Lemma success_commits_lock_state_witness :
  ∃ r, target (sess m_unlocked) (Remove "1" "a.txt") = Some r
       ∧ locked_in
           (disk (final (run (Remove "1" "a.txt") env_yes m_unlocked)))
           (rec_bucket r)
         = Some true.
Proof.
  apply (success_commits_lock_state (Remove "1" "a.txt") env_yes m_unlocked).
  split; vm_compute; reflexivity.
Defined.

(** ** Refusals of rename and attach *)

(** X10: [rename_file] refuses, with the machine otherwise unchanged,
    a key that has no live version ("not found") and a new key that
    has one ("already exists"); in particular a live key cannot be
    renamed to itself. *)
Theorem rename_file_refusals recid key new_key env m r :
  record_of (sess m) "recid" recid = Some r →
  is_Some (buckets (sess m) !! rec_bucket r) →
  (index_get (sess m) (rec_bucket r) key = None →
   rename_file recid key new_key env m
   = Return tt (emit (Echo (MsgNotFound key)) m))
  ∧ (is_Some (index_get (sess m) (rec_bucket r) key) →
     is_Some (index_get (sess m) (rec_bucket r) new_key) →
     rename_file recid key new_key env m
     = Return tt (emit (Echo (MsgAlreadyExists new_key)) m))
  ∧ (is_Some (index_get (sess m) (rec_bucket r) key) →
     rename_file recid key key env m
     = Return tt (emit (Echo (MsgAlreadyExists key)) m)).
Proof.
  intros Hr [bk Hb].
  assert (∀ k2,
    is_Some (index_get (sess m) (rec_bucket r) key) →
    is_Some (index_get (sess m) (rec_bucket r) k2) →
    rename_file recid key k2 env m
    = Return tt (emit (Echo (MsgAlreadyExists k2)) m)) as Hex.
  { intros k2 [o Ho] [o2 Ho2]. exec; done. }
  split; [|split].
  - intros Hg. exec; done.
  - apply Hex.
  - intros Hk. by apply Hex.
Qed.

Lemma rename_file_refusals_witness :
  rename_file "1" "a.txt" "a.txt" env_yes m_new
  = Return tt (emit (Echo (MsgAlreadyExists "a.txt")) m_new).
Proof.
  destruct (rename_file_refusals "1" "a.txt" "a.txt" env_yes m_new
              demo_record) as (_ & _ & H);
    [vm_compute; reflexivity|by eexists|].
  apply H. by eexists.
Defined.

(** X11: [attach_file] given a file id refuses a target key that has a
    live version: it reports that the key exists on the bucket and
    changes nothing; the bucket is not unlocked. *)
Theorem attach_file_target_exists
  fid pid_type1 pid_value1 key1 ty2 pv2 k2 env m r obj :
  supplied (Some fid) →
  attach_requires (Some fid) pid_type1 pid_value1 key1
                  (Some ty2) (Some pv2) (Some k2) →
  record_of (sess m) ty2 pv2 = Some r →
  is_Some (buckets (sess m) !! rec_bucket r) →
  index_get (sess m) (rec_bucket r) k2 = Some obj →
  attach_file (Some fid) pid_type1 pid_value1 key1
              (Some ty2) (Some pv2) (Some k2) env m
  = Return tt (emit (Echo (MsgAlreadyExistsOn k2 (rec_bucket r))) m).
Proof.
  intros Hf (_ & (H2 & H3 & H4) & H5 & H6) Hr [bk Hb] Hg.
  specialize (H6 H2).
  apply truthy_supplied in Hf, H2, H3, H4.
  pose proof H6 as H6'. apply is_pid_type_valid in H6'.
  assert ((if truthy pid_type1
           then py_assert (is_pid_type pid_type1) pid_type_msg
           else mret tt) env m = Return tt m) as Hb1.
  { destruct (truthy pid_type1) eqn:Ht; [|done].
    apply truthy_supplied in Ht. apply H5, is_pid_type_valid in Ht.
    by rewrite Ht. }
  unfold attach_file. rewrite Hf, H2, H3, H4, H6'.
  unfold mbind at 1 2 3, Cmd_bind at 1 2 3. cbn [orb andb negb py_assert].
  unfold mret at 1, Cmd_ret at 1. rewrite Hb1.
  unfold mret at 1, Cmd_ret at 1.
  unfold attach_to. rewrite (resolver_for_valid _ H6).
  change (str (Some pv2)) with pv2. change (str (Some k2)) with k2.
  exec; done.
Qed.

Lemma attach_file_target_exists_witness :
  attach_file (Some "h1") None None None
              (Some "recid") (Some "1") (Some "a.txt") env_yes m_new
  = Return tt (emit (Echo (MsgAlreadyExistsOn "a.txt" 7)) m_new).
Proof.
  apply (attach_file_target_exists "h1" None None None "recid" "1" "a.txt"
           env_yes m_new demo_record demo_version).
  - eexists. split; [reflexivity|discriminate].
  - split; [|split; [|split]].
    + left. eexists. split; [reflexivity|discriminate].
    + repeat split; eexists; (split; [reflexivity|discriminate]).
    + intros (s & Hs & _). discriminate Hs.
    + intros _. by left.
  - vm_compute. reflexivity.
  - by eexists.
  - vm_compute. reflexivity.
Defined.

(** X12: when a file id is supplied, [attach_file] never looks at the
    source pid value and the source key: the run is the same whatever
    they are. *)
Theorem attach_file_with_file_id_ignores_source
  file_id pid_type1 pid_value1 key1 pid_value1' key1'
  pid_type2 pid_value2 key2 env m :
  supplied file_id →
  attach_file file_id pid_type1 pid_value1 key1
              pid_type2 pid_value2 key2 env m
  = attach_file file_id pid_type1 pid_value1' key1'
                pid_type2 pid_value2 key2 env m.
Proof.
  intros Hf. apply truthy_supplied in Hf.
  unfold attach_file. rewrite Hf. reflexivity.
Qed.

Lemma attach_file_with_file_id_ignores_source_witness :
  attach_file (Some "h1") None (Some "9") (Some "zz")
              (Some "depid") (Some "2") (Some "c.txt") env_yes m_new
  = attach_file (Some "h1") None None None
                (Some "depid") (Some "2") (Some "c.txt") env_yes m_new.
Proof.
  apply (attach_file_with_file_id_ignores_source
           (Some "h1") None (Some "9") (Some "zz") None None
           (Some "depid") (Some "2") (Some "c.txt") env_yes m_new).
  eexists. split; [reflexivity|discriminate].
Defined.

(** X13: the file id given to [attach_file] is not looked up before the
    bucket is unlocked: an id that is not in the content store makes
    the create fail, and the run then ends with the target bucket
    unlocked in the session, no version added and nothing committed. *)
Theorem attach_file_unknown_file_id
  fid pid_type1 pid_value1 key1 ty2 pv2 k2 env m r :
  supplied (Some fid) →
  attach_requires (Some fid) pid_type1 pid_value1 key1
                  (Some ty2) (Some pv2) (Some k2) →
  record_of (sess m) ty2 pv2 = Some r →
  is_Some (buckets (sess m) !! rec_bucket r) →
  index_get (sess m) (rec_bucket r) k2 = None →
  confirm env = true →
  fails env StepCreate = false →
  store (sess m) !! fid = None →
  ∃ m', attach_file (Some fid) pid_type1 pid_value1 key1
                    (Some ty2) (Some pv2) (Some k2) env m
        = Raise NotFound m'
        ∧ locked_in (sess m') (rec_bucket r) = Some false
        ∧ versions (sess m') = versions (sess m)
        ∧ disk m' = disk m.
Proof.
  intros Hf (_ & (H2 & H3 & H4) & H5 & H6) Hr [bk Hb] Hg Hc Hfl Hst.
  specialize (H6 H2).
  apply truthy_supplied in Hf, H2, H3, H4.
  pose proof H6 as H6'. apply is_pid_type_valid in H6'.
  assert ((if truthy pid_type1
           then py_assert (is_pid_type pid_type1) pid_type_msg
           else mret tt) env m = Return tt m) as Hb1.
  { destruct (truthy pid_type1) eqn:Ht; [|done].
    apply truthy_supplied in Ht. apply H5, is_pid_type_valid in Ht.
    by rewrite Ht. }
  unfold attach_file. rewrite Hf, H2, H3, H4, H6'.
  unfold mbind at 1 2 3, Cmd_bind at 1 2 3. cbn [orb andb negb py_assert].
  unfold mret at 1, Cmd_ret at 1. rewrite Hb1.
  unfold mret at 1, Cmd_ret at 1.
  unfold attach_to. rewrite (resolver_for_valid _ H6).
  change (str (Some pv2)) with pv2. change (str (Some k2)) with k2.
  change (str (Some fid)) with fid.
  exec.
  all: eexists; (split; [reflexivity|]); red_cmd.
  all: by rewrite lookup_insert_eq.
Qed.

Lemma attach_file_unknown_file_id_witness :
  ∃ m', attach_file (Some "nope") None None None
                    (Some "recid") (Some "1") (Some "c.txt") env_yes m_new
        = Raise NotFound m'
        ∧ locked_in (sess m') 7 = Some false
        ∧ versions (sess m') = versions (sess m_new)
        ∧ disk m' = disk m_new.
Proof.
  apply (attach_file_unknown_file_id "nope" None None None "recid" "1"
           "c.txt" env_yes m_new demo_record).
  - eexists. split; [reflexivity|discriminate].
  - split; [|split; [|split]].
    + left. eexists. split; [reflexivity|discriminate].
    + repeat split; eexists; (split; [reflexivity|discriminate]).
    + intros (s & Hs & _). discriminate Hs.
    + intros _. by left.
  - vm_compute. reflexivity.
  - by eexists.
  - vm_compute. reflexivity.
  - reflexivity.
  - reflexivity.
  - vm_compute. reflexivity.
Defined.

(** ** What a successful add has stored *)

Lemma stored_fresh (st : gmap string ContentEntry) id ce :
  st !! id = None → stored st id ce !! id = Some ce.
Proof. intros H. unfold stored. rewrite H. apply lookup_insert_eq. Qed.

Lemma rest_of_rewound f p :
  rest_of (with_pos SEEK_SET (with_pos p f)) = f_content f.
Proof. done. Qed.

(** X14: a successful add makes the key, the base name of the file,
    live with the digest of the whole content of the file as its file
    id, wherever the stream stood when the command started; content
    that was not in the store is entered with the length of the file
    as its size. *)
Theorem add_file_stores_whole_file recid replace_existing env m m' :
  succeeded (Add recid replace_existing) env m m' →
  ∃ r v,
    target (sess m) (Add recid replace_existing) = Some r
    ∧ index_get (sess m') (rec_bucket r) (basename (f_name (fp m))) = Some v
    ∧ ov_file v = Some (digest env (f_content (fp m)))
    ∧ is_Some (store (sess m') !! digest env (f_content (fp m)))
    ∧ (store (sess m) !! digest env (f_content (fp m)) = None →
       store (sess m') !! digest env (f_content (fp m))
       = Some (mkContentEntry (digest env (f_content (fp m)))
                              (file_len (fp m))))
    ∧ disk m' = sess m'.
Proof.
  intros [Hrun Hlast]. unfold target. exec; by_last_echo Hlast.
  all: repeat match goal with
       | H : seek_target _ SEEK_SET SEEK_END = Some _ |- _ =>
           apply seek_end_inv in H; subst
       | H : seek_target _ SEEK_SET 0 = Some _ |- _ =>
           apply seek_set_inv in H; subst
       end.
  all: rewrite !rest_of_rewound.
  all: eexists _, _; (split; [done|]); rewrite find_live_put.
  all: split; [done|]; split; [done|].
  all: split; [apply stored_is_Some|].
  all: split; [|done].
  all: apply stored_fresh.
Qed.

Lemma add_file_stores_whole_file_witness :
  ∃ r v,
    target (sess m_new) (Add "1" false) = Some r
    ∧ index_get (sess (final (run (Add "1" false) env_yes m_new)))
                (rec_bucket r) "b.txt" = Some v
    ∧ ov_file v = Some "hi".
Proof.
  assert (succeeded (Add "1" false) env_yes m_new
            (final (run (Add "1" false) env_yes m_new))) as H
    by (split; vm_compute; reflexivity).
  destruct (add_file_stores_whole_file _ _ _ _ _ H)
    as (r & v & Ht & Hg & Hf & _).
  exists r, v. split; [exact Ht|]. split; [exact Hg|exact Hf].
Defined.

(** ** Renaming there and back *)

Lemma rename_file_success recid key new_key env m m' :
  succeeded (Rename recid key new_key) env m m' →
  ∃ r obj fid,
    record_of (sess m) "recid" recid = Some r
    ∧ index_get (sess m) (rec_bucket r) key = Some obj
    ∧ ov_file obj = Some fid
    ∧ index_get (sess m) (rec_bucket r) new_key = None
    ∧ versions (sess m')
      = appended (appended (versions (sess m)) (rec_bucket r) key None)
                 (rec_bucket r) new_key (Some fid)
    ∧ pids (sess m') = pids (sess m)
    ∧ records (sess m')
      = <[rec_id r := mkRecord (rec_id r) (rec_bucket r)
                               (listing (sess m') (rec_bucket r))]>
          (records (sess m)).
Proof.
  intros [Hrun Hlast]. exec; by_last_echo Hlast.
  eexists _, _, _. split; [done|]. split; [done|]. split; [done|].
  split; [done|].
  match goal with
  | H : find_live _ _ key = Some ?o |- _ =>
      rewrite (find_live_key _ _ _ _ H)
  end.
  done.
Qed.

Lemma record_of_bucket_kept (d d' : Db) ty pv r r0 :
  record_of d ty pv = Some r →
  pids d' = pids d →
  records d' = <[rec_id r0 := mkRecord (rec_id r0) (rec_bucket r0)
                                       (rec_files r0)]> (records d) →
  rec_bucket r0 = rec_bucket r →
  ∃ r', record_of d' ty pv = Some r' ∧ rec_bucket r' = rec_bucket r.
Proof.
  unfold record_of. intros Hr Hp Hrs Hb. rewrite Hp.
  destruct (pids d !! (ty, pv)) as [rid|]; [|done]. cbn in *.
  rewrite Hrs. destruct (decide (rec_id r0 = rid)) as [<-|Hne].
  - rewrite lookup_insert_eq. by eexists.
  - rewrite lookup_insert_ne by done. by eexists.
Qed.

(** X15: renaming a key and then renaming it back restores it: after
    the two successful renames the first key is live again with the
    file id it had, and the second key has no live version. *)
Theorem rename_file_round_trip recid key new_key env env' m m1 m2 :
  succeeded (Rename recid key new_key) env m m1 →
  succeeded (Rename recid new_key key) env' m1 m2 →
  ∃ r obj v,
    record_of (sess m) "recid" recid = Some r
    ∧ index_get (sess m) (rec_bucket r) key = Some obj
    ∧ index_get (sess m2) (rec_bucket r) key = Some v
    ∧ ov_file v = ov_file obj
    ∧ index_get (sess m2) (rec_bucket r) new_key = None.
Proof.
  intros H1 H2.
  destruct (rename_file_success _ _ _ _ _ _ H1)
    as (r & obj & fid & Hr & Hg & Hfid & Hn & Hv1 & Hp1 & Hrs1).
  destruct (rename_file_success _ _ _ _ _ _ H2)
    as (r1 & obj1 & fid1 & Hr1 & Hg1 & Hfid1 & Hn1 & Hv2 & _ & _).
  assert (key ≠ new_key) as Hne by (intros ->; congruence).
  destruct (record_of_bucket_kept (sess m) (sess m1) "recid" recid r
              (mkRecord (rec_id r) (rec_bucket r)
                        (listing (sess m1) (rec_bucket r)))
              Hr Hp1 Hrs1 eq_refl) as (r' & Hr' & Hb').
  rewrite Hr' in Hr1. injection Hr1 as <-. rewrite Hb' in *.
  unfold index_get in *. rewrite Hv1 in Hg1. rewrite find_live_put in Hg1.
  injection Hg1 as <-. cbn in Hfid1. injection Hfid1 as <-.
  exists r, obj. eexists. split; [done|]. split; [done|].
  rewrite Hv2, find_live_put. split; [done|]. split; [by rewrite Hfid|].
  rewrite find_live_appended_other by congruence.
  apply find_live_tombstone.
Qed.

Lemma rename_file_round_trip_witness :
  ∃ r obj v,
    record_of (sess m_new) "recid" "1" = Some r
    ∧ index_get (sess m_new) (rec_bucket r) "a.txt" = Some obj
    ∧ index_get
        (sess (final (run (Rename "1" "b.txt" "a.txt") env_yes
                 (final (run (Rename "1" "a.txt" "b.txt") env_yes m_new)))))
        (rec_bucket r) "a.txt" = Some v
    ∧ ov_file v = ov_file obj
    ∧ index_get
        (sess (final (run (Rename "1" "b.txt" "a.txt") env_yes
                 (final (run (Rename "1" "a.txt" "b.txt") env_yes m_new)))))
        (rec_bucket r) "b.txt" = None.
Proof.
  apply (rename_file_round_trip "1" "a.txt" "b.txt" env_yes env_yes m_new
           (final (run (Rename "1" "a.txt" "b.txt") env_yes m_new))).
  - split; vm_compute; reflexivity.
  - split; vm_compute; reflexivity.
Defined.

(** ** [list_files] *)

Lemma one_in_filter {A} (P : A → Prop) `{!∀ x, Decision (P x)}
  (l : list A) x y :
  (length (filter P l) ≤ 1)%nat → x ∈ l → y ∈ l → P x → P y → x = y.
Proof.
  induction l as [|a l IH]; intros Hlen Hx Hy Px Py.
  - by apply elem_of_nil in Hx.
  - rewrite filter_cons in Hlen.
    apply elem_of_cons in Hx. apply elem_of_cons in Hy.
    destruct (decide (P a)) as [Pa|Pa].
    + assert (filter P l = []) as Hnil.
      { destruct (filter P l); [done|]. cbn in Hlen. lia. }
      destruct Hx as [->|Hx]; destruct Hy as [->|Hy]; try done.
      * by destruct (filter_nil_not_elem_of P l y Hnil Py).
      * by destruct (filter_nil_not_elem_of P l x Hnil Px).
      * by destruct (filter_nil_not_elem_of P l x Hnil Px).
    + destruct Hx as [->|Hx]; [done|]. destruct Hy as [->|Hy]; [done|].
      by apply IH.
Qed.

Lemma find_live_the_head vs b v :
  unique_heads vs → v ∈ vs → live_in b v →
  find_live vs b (ov_key v) = Some v.
Proof.
  intros Hu Hv [Hb [Hh Hf]].
  assert (live_at b (ov_key v) v) as Hl by done.
  destruct (find_live vs b (ov_key v)) as [w|] eqn:Hw.
  - apply find_live_Some in Hw as [Hin [Hs [Hwh _]]]. f_equal.
    by apply (one_in_filter (head_at b (ov_key v)) vs).
  - exfalso. by apply (proj1 (find_live_None vs b (ov_key v)) Hw v).
Qed.

Lemma elem_of_live_sorted vs b v :
  v ∈ live_sorted vs b ↔ live_in b v ∧ v ∈ vs.
Proof.
  unfold live_sorted. rewrite merge_sort_Permutation.
  apply list_elem_of_filter.
Qed.

Lemma files_getitem_listed d b s :
  unique_heads (versions d) →
  s ∈ listing d b →
  files_getitem d b (fs_key s)
  = inr (mkContentEntry (fs_checksum s) (fs_size s)).
Proof.
  intros Hu Hs. unfold listing, index_list in Hs.
  apply list_elem_of_omap in Hs as (v & Hv & Hsum).
  apply elem_of_live_sorted in Hv as [Hl Hv].
  pose proof (summary_key _ _ _ Hsum) as Hk.
  unfold files_getitem, index_get. rewrite Hk.
  rewrite (find_live_the_head _ _ _ Hu Hv Hl).
  unfold summary in Hsum.
  destruct (ov_file v) as [f|]; [|done]. cbn in *.
  destruct (store d !! f) as [ce|]; [|done]. cbn in *.
  injection Hsum as <-. by destruct ce.
Qed.

Lemma file_lines_all d b idx ss :
  (∀ s, s ∈ ss →
        files_getitem d b (fs_key s)
        = inr (mkContentEntry (fs_checksum s) (fs_size s))) →
  file_lines d b idx (fs_key <$> ss) = (numbered idx ss, None).
Proof.
  revert idx. induction ss as [|s ss IH]; intros idx Hok; [done|].
  rewrite fmap_cons. cbn [file_lines numbered].
  rewrite (Hok s) by by left. cbn.
  rewrite IH; [done|]. intros s' Hs'. apply Hok. by right.
Qed.

Lemma file_lines_stop d b idx ss s rest :
  (∀ s', s' ∈ ss →
         files_getitem d b (fs_key s')
         = inr (mkContentEntry (fs_checksum s') (fs_size s'))) →
  index_get d b (fs_key s) = None →
  file_lines d b idx (fs_key <$> (ss ++ s :: rest))
  = (numbered idx ss, Some (KeyError (fs_key s))).
Proof.
  revert idx. induction ss as [|s0 ss IH]; intros idx Hok Hg.
  - cbn. unfold files_getitem. by rewrite Hg.
  - cbn [app]. rewrite fmap_cons. cbn [file_lines numbered].
    rewrite (Hok s0) by by left. cbn.
    rewrite IH; [done| |done]. intros s' Hs'. apply Hok. by right.
Qed.

Lemma list_files_of_listing recid d r :
  record_of d "recid" recid = Some r →
  unique_heads (versions d) →
  rec_files r = listing d (rec_bucket r) →
  list_files recid d
  = mkListOutput
      (Some (recid, rec_id r, length (index_list d (rec_bucket r))))
      (numbered 0 (rec_files r)) None.
Proof.
  intros Hr Hu Hl. unfold list_files, files_len, files_keys. rewrite Hr.
  rewrite file_lines_all; [done|].
  intros s Hs. rewrite Hl in Hs. by apply files_getitem_listed.
Qed.

(** X16: on a record whose embedded listing is the projection of the
    live versions of its bucket, in a well-formed index, [list_files]
    stops on no error: it prints the number of live entries and one
    line per entry of the listing, numbered from 0, with the key, the
    checksum and the size. *)
Theorem list_files_prints_listing recid d r :
  record_of d "recid" recid = Some r →
  unique_heads (versions d) →
  rec_files r = listing d (rec_bucket r) →
  list_files recid d
  = mkListOutput
      (Some (recid, rec_id r, length (index_list d (rec_bucket r))))
      (numbered 0 (rec_files r)) None.
Proof. apply list_files_of_listing. Qed.

Lemma demo_unique_heads : unique_heads (versions (sess m_new)).
Proof.
  intros b k. vm_compute versions.
  rewrite filter_cons, filter_nil. case_decide; cbn; lia.
Qed.

Lemma list_files_prints_listing_witness :
  list_files "1" (sess m_new)
  = mkListOutput (Some ("1", 10%nat, 1%nat))
                 [mkFileLine 0 "a.txt" "h1" 3] None.
Proof.
  apply (list_files_prints_listing "1" (sess m_new) demo_record).
  - vm_compute. reflexivity.
  - exact demo_unique_heads.
  - vm_compute. reflexivity.
Defined.

(** X17: [list_files] takes the keys from the listing embedded in the
    record and the files from the index: a listed key that has no live
    version stops it with a [KeyError], after the lines of the entries
    before it. *)
Theorem list_files_stale_key recid d r ss s rest :
  record_of d "recid" recid = Some r →
  rec_files r = ss ++ s :: rest →
  (∀ s', s' ∈ ss →
         files_getitem d (rec_bucket r) (fs_key s')
         = inr (mkContentEntry (fs_checksum s') (fs_size s'))) →
  index_get d (rec_bucket r) (fs_key s) = None →
  lo_lines (list_files recid d) = numbered 0 ss
  ∧ lo_error (list_files recid d) = Some (KeyError (fs_key s)).
Proof.
  intros Hr Hf Hok Hg. unfold list_files, files_len, files_keys. rewrite Hr, Hf.
  by rewrite file_lines_stop.
Qed.

Lemma list_files_stale_key_witness :
  lo_lines (list_files "1"
              (sess (final (run (Remove "1" "a.txt")
                              (demo_env true [StepFlush]) m_new))))
  = []
  ∧ lo_error (list_files "1"
                (sess (final (run (Remove "1" "a.txt")
                                (demo_env true [StepFlush]) m_new))))
    = Some (KeyError "a.txt").
Proof.
  apply (list_files_stale_key "1" _ demo_record []
           (mkFileSummary "a.txt" "h1" 3) []).
  - vm_compute. reflexivity.
  - reflexivity.
  - intros s' Hs'. by apply elem_of_nil in Hs'.
  - vm_compute. reflexivity.
Defined.

(** ** Listing after a command *)

Lemma success_record op env m m' :
  succeeded op env m m' →
  ∃ r, target (sess m) op = Some r
       ∧ records (disk m') !! rec_id r
         = Some (mkRecord (rec_id r) (rec_bucket r)
                          (listing (disk m') (rec_bucket r)))
       ∧ pids (disk m') = pids (sess m)
       ∧ disk m' = sess m'.
Proof.
  intros [Hrun Hlast].
  destruct op; unfold target; exec; by_last_echo Hlast.
  all: eexists; (split; [done|]); by rewrite lookup_insert_eq.
Qed.

(** X18: after any successful command on a well-formed index,
    [list_files] on the committed store, under a 'recid' of the
    record the command worked on, stops on no error and prints
    exactly the committed live files of its bucket. *)
Theorem list_files_after_success op env m m' recid r :
  succeeded op env m m' →
  target (sess m) op = Some r →
  pids (sess m) !! ("recid", recid) = Some (rec_id r) →
  unique_heads (versions (sess m)) →
  list_files recid (disk m')
  = mkListOutput
      (Some (recid, rec_id r,
             length (index_list (disk m') (rec_bucket r))))
      (numbered 0 (listing (disk m') (rec_bucket r))) None.
Proof.
  intros Hs Ht Hp Hu.
  destruct (success_record _ _ _ _ Hs) as (r0 & Ht0 & Hr & Hpids & Hd).
  rewrite Ht in Ht0. injection Ht0 as <-.
  pose proof (run_keeps_unique_heads op env m Hu) as Hu'.
  destruct Hs as [Hrun _]. rewrite Hrun in Hu'. cbn [final] in Hu'.
  rewrite <- Hd in Hu'.
  apply (list_files_of_listing recid (disk m')
           (mkRecord (rec_id r) (rec_bucket r)
                     (listing (disk m') (rec_bucket r)))); [|done..].
  unfold record_of. rewrite Hpids, Hp. exact Hr.
Qed.

Lemma list_files_after_success_witness :
  list_files "1" (disk (final (run (Add "1" false) env_yes m_new)))
  = mkListOutput
      (Some ("1", 10%nat,
             length (index_list
                       (disk (final (run (Add "1" false) env_yes m_new)))
                       7)))
      (numbered 0
         (listing (disk (final (run (Add "1" false) env_yes m_new))) 7))
      None.
Proof.
  apply (list_files_after_success (Add "1" false) env_yes m_new
           (final (run (Add "1" false) env_yes m_new)) "1" demo_record).
  - split; vm_compute; reflexivity.
  - vm_compute. reflexivity.
  - vm_compute. reflexivity.
  - exact demo_unique_heads.
Defined.

(** ** The other keys of the bucket *)

(** The key of a live version found under [k] is [k]. *)
Ltac name_keys :=
  repeat match goal with
  | H : find_live _ _ ?k = Some ?o |- context [ov_key ?o] =>
      rewrite (find_live_key _ _ _ _ H)
  end.

(** X19: a run changes the live version of no key but the ones its
    command names: the base name of the added file, the removed key,
    the two keys of a rename, the target key of an attach.  Every other
    key of the bucket has in the session the live version it had,
    however the run ends. *)
Theorem other_keys_untouched op env m b k :
  k ∉ touched op m →
  index_get (sess (final (run op env m))) b k = index_get (sess m) b k.
Proof.
  intros Hk. destruct op; unfold touched in Hk.
  all: rewrite ?not_elem_of_cons in Hk.
  all: exec; name_keys.
  all: destruct_and?.
  all: by rewrite ?find_live_appended_other by congruence.
Qed.

Lemma other_keys_untouched_witness :
  index_get (sess (final (run (Add "1" false) env_yes m_new))) 7 "a.txt"
  = index_get (sess m_new) 7 "a.txt".
Proof.
  apply (other_keys_untouched (Add "1" false) env_yes m_new 7 "a.txt").
  vm_compute. intros H. apply elem_of_cons in H as [H|H].
  - discriminate H.
  - by apply elem_of_nil in H.
Defined.

(** ** What a successful remove has done *)

Lemma no_key_after_tombstone st vs b k s :
  s ∈ omap (summary st) (live_sorted (appended vs b k None) b) →
  fs_key s ≠ k.
Proof.
  intros Hs Hk. apply list_elem_of_omap in Hs as (v & Hv & Hsum).
  apply summary_key in Hsum as Hkey.
  apply elem_of_live_sorted in Hv as [[Hb Hl] Hv].
  unfold appended in Hv. apply elem_of_app in Hv as [Hv|Hv].
  - apply list_elem_of_fmap in Hv as (w & -> & _).
    apply (retire_not_live_at b k w). split; [|done].
    split; [done|congruence].
  - apply list_elem_of_singleton in Hv as ->.
    destruct Hl as [_ [f Hf]]. discriminate Hf.
Qed.

(** X20: after a successful remove the key has no live version and the
    listing committed with the record has no entry for it. *)
Theorem remove_file_removes recid key env m m' :
  succeeded (Remove recid key) env m m' →
  ∃ r r',
    record_of (sess m) "recid" recid = Some r
    ∧ index_get (disk m') (rec_bucket r) key = None
    ∧ records (disk m') !! rec_id r = Some r'
    ∧ ∀ s, s ∈ rec_files r' → fs_key s ≠ key.
Proof.
  intros [Hrun Hlast]. exec; by_last_echo Hlast. name_keys.
  eexists _, _. split; [done|]. split; [apply find_live_tombstone|].
  rewrite lookup_insert_eq. split; [done|]. cbn [rec_files].
  intros s Hs. by eapply no_key_after_tombstone.
Qed.

Lemma remove_file_removes_witness :
  ∃ r r',
    record_of (sess m_new) "recid" "1" = Some r
    ∧ index_get (disk (final (run (Remove "1" "a.txt") env_yes m_new)))
                (rec_bucket r) "a.txt" = None
    ∧ records (disk (final (run (Remove "1" "a.txt") env_yes m_new)))
      !! rec_id r = Some r'
    ∧ ∀ s, s ∈ rec_files r' → fs_key s ≠ "a.txt".
Proof.
  apply (remove_file_removes "1" "a.txt" env_yes m_new).
  split; vm_compute; reflexivity.
Defined.
